(** * uniap: the JSON extraction pipeline and the API key manager of [app.py]

    A shallow embedding of [src/app.py] and the properties its specification
    states about it.

    Conventions of the embedding.
    - A Python [str] is a [string]; the model covers texts whose code points
      fit in eight bits.
    - A Python [int] is a [Z].
    - A [dict] used as a map is a [gmap]; a [dict] whose key order is
      observable (a parsed JSON object, the attributes of a tag) is an
      association list in insertion order.
    - [None] is [None]; a call that may raise returns a sum whose left side
      is the exception.
    - [datetime.now()] is an argument of the operation that reads the clock.
    - The libraries the program calls ([json], [re], [bs4], [urllib.parse],
      [requests]) are collaborators: the extractor is written over the class
      [Libs]; [Module Model] gives executable models of them, used to run
      the extractor on concrete documents. *)

From Stdlib Require Import Ascii String.
From stdpp Require Import base numbers option list strings pretty gmap fin_maps.

Set Warnings "-register-all".

Local Open Scope string_scope.
Local Open Scope list_scope.
Local Open Scope Z_scope.

(** ** Python strings *)

Module Str.

(** The double quote character. *)
Definition dq : ascii := "034"%char.
Definition DQ : string := String dq EmptyString.

Definition lf : ascii := "010"%char.
Definition tab : ascii := "009"%char.
Definition cr : ascii := "013"%char.
Definition ff : ascii := "012"%char.
Definition bs : ascii := "008"%char.

(** [s.startswith(p)] *)
Definition startswith (p s : string) : bool := String.prefix p s.

(** [needle in hay] *)
Fixpoint contains (needle hay : string) : bool :=
  startswith needle hay ||
  match hay with
  | EmptyString => false
  | String _ hay' => contains needle hay'
  end.

(** [s[n:]] *)
Fixpoint drop (n : nat) (s : string) : string :=
  match n, s with
  | O, _ => s
  | S n', String _ s' => drop n' s'
  | S _, EmptyString => EmptyString
  end.

(** [s.replace(old, new)]: every occurrence of [old], scanning from the
    left without overlap.  [skip] counts the characters of an occurrence
    still to be passed over. *)
Fixpoint replace_from (old new : string) (skip : nat) (s : string) : string :=
  match skip with
  | S k =>
      match s with
      | EmptyString => EmptyString
      | String _ s' => replace_from old new k s'
      end
  | O =>
      if startswith old s then
        match String.length old, s with
        | O, EmptyString => new
        | O, String c s' => new +:+ String c (replace_from old new 0 s')
        | S k, EmptyString => EmptyString
        | S k, String _ s' => new +:+ replace_from old new k s'
        end
      else
        match s with
        | EmptyString => EmptyString
        | String c s' => String c (replace_from old new 0 s')
        end
  end.

Definition replace (old new s : string) : string := replace_from old new 0 s.

(** Truth value of a string: non-empty. *)
Definition truthy (s : string) : bool :=
  match s with EmptyString => false | _ => true end.

Definition mem (c : ascii) (cs : list ascii) : bool :=
  existsb (Ascii.eqb c) cs.

Definition chars (s : string) : list ascii := list_ascii_of_string s.

End Str.

(** ** Regular expressions: the fragment of [re] the program uses

    The three patterns of [find_json_objects] are built from literal
    characters (escaped or not), character classes [[...]] and [[^...]], and
    the greedy star.  [compile] reads that fragment from the pattern text;
    [match_here] is a backtracking matcher with [re]'s priorities (a star
    takes as many characters as it can and gives them back one at a time);
    [findall] is [re.findall] for a pattern without groups. *)

Module Re.

Inductive charset :=
| Only (cs : list ascii)      (* [abc], or a single literal character *)
| Except (cs : list ascii).   (* [^abc] *)

Inductive piece :=
| One (c : charset)
| Star (c : charset).

Definition pattern := list piece.

Definition accepts (c : charset) (a : ascii) : bool :=
  match c with
  | Only cs => Str.mem a cs
  | Except cs => negb (Str.mem a cs)
  end.

(** *** Reading a pattern *)

(** The members of a class, up to the closing bracket; a backslash
    escapes the next character. *)
Fixpoint class_members (s : string) (esc : bool) : option (list ascii * string) :=
  match s with
  | EmptyString => None
  | String a s' =>
      if esc then
        '(cs, r) ← class_members s' false; Some (a :: cs, r)
      else if Ascii.eqb a "\" then class_members s' true
      else if Ascii.eqb a "]" then Some ([], s')
      else '(cs, r) ← class_members s' false; Some (a :: cs, r)
  end.

Definition read_class (s : string) : option (charset * string) :=
  match s with
  | String "^" s' => '(cs, r) ← class_members s' false; Some (Except cs, r)
  | _ => '(cs, r) ← class_members s false; Some (Only cs, r)
  end.

(** One atom and what follows it. *)
Definition read_atom (s : string) : option (charset * string) :=
  match s with
  | EmptyString => None
  | String "\" (String a r) => Some (Only [a], r)
  | String "\" EmptyString => None
  | String "[" r => read_class r
  | String "*" _ => None
  | String a r => Some (Only [a], r)
  end.

Fixpoint compile_fuel (fuel : nat) (s : string) : option pattern :=
  match fuel with
  | O => None
  | S fuel' =>
      match s with
      | EmptyString => Some []
      | _ =>
          '(c, r) ← read_atom s;
          match r with
          | String "*" r' => p ← compile_fuel fuel' r'; Some (Star c :: p)
          | _ => p ← compile_fuel fuel' r; Some (One c :: p)
          end
      end
  end.

Definition compile (s : string) : option pattern :=
  compile_fuel (S (String.length s)) s.

(** *** Matching *)

(** [match_here p s]: the match of [p] anchored at the start of [s] that
    [re] prefers, as the matched text and the rest of [s]. *)
Fixpoint match_here (p : pattern) (s : string) {struct p} : option (string * string) :=
  match p with
  | [] => Some (EmptyString, s)
  | One c :: p' =>
      match s with
      | EmptyString => None
      | String a s' =>
          if accepts c a then
            '(m, r) ← match_here p' s'; Some (String a m, r)
          else None
      end
  | Star c :: p' =>
      (fix star (s : string) : option (string * string) :=
         match s with
         | EmptyString => match_here p' s
         | String a s' =>
             if accepts c a then
               match star s' with
               | Some (m, r) => Some (String a m, r)
               | None => match_here p' s
               end
             else match_here p' s
         end) s
  end.

(** [findall_from p skip s]: the matches of [p] in [s], left to right and
    without overlap; [skip] counts the characters of the last match that
    are still to be passed over. *)
Fixpoint findall_from (p : pattern) (skip : nat) (s : string) {struct s} : list string :=
  match skip with
  | S k =>
      match s with
      | EmptyString => []
      | String _ s' => findall_from p k s'
      end
  | O =>
      match match_here p s with
      | Some (m, _) =>
          m :: match s with
               | EmptyString => []
               | String _ s' => findall_from p (Nat.pred (String.length m)) s'
               end
      | None =>
          match s with
          | EmptyString => []
          | String _ s' => findall_from p 0 s'
          end
      end
  end.

(** [re.findall(pattern, text)]; a pattern outside the fragment is
    [re.error]. *)
Definition findall (pat text : string) : option (list string) :=
  p ← compile pat; Some (findall_from p 0 text).

End Re.

(** ** Python values that cross the program *)

(** A [float], as far as the program looks at one: how it prints and
    whether it is zero (its truth value). *)
Record pyfloat := { float_repr : string; float_is_zero : bool }.

(** A parsed JSON value, as [json.loads], [response.json()] and Flask's
    [request.json] produce them.  An object is a [dict]: its members in
    insertion order, each key once. *)
Inductive json :=
| JNull
| JBool (b : bool)
| JInt (z : Z)
| JFloat (f : pyfloat)
| JStr (s : string)
| JArr (items : list json)
| JObj (members : list (string * json)).

Module Py.

(** Truth value: what [if x:] and [not x] test. *)
Definition truthy (v : json) : bool :=
  match v with
  | JNull => false
  | JBool b => b
  | JInt z => negb (z =? 0)
  | JFloat f => negb (float_is_zero f)
  | JStr s => Str.truthy s
  | JArr l => match l with [] => false | _ => true end
  | JObj m => match m with [] => false | _ => true end
  end.

(** [d.get(k)] on the members of an object. *)
Fixpoint dict_get (k : string) (d : list (string * json)) : option json :=
  match d with
  | [] => None
  | (k', v) :: d' => if String.eqb k k' then Some v else dict_get k d'
  end.

(** [d[k] = v]: a key already present keeps its place. *)
Fixpoint dict_set (k : string) (v : json) (d : list (string * json)) : list (string * json) :=
  match d with
  | [] => [(k, v)]
  | (k', v') :: d' =>
      if String.eqb k k' then (k, v) :: d' else (k', v') :: dict_set k v d'
  end.

(** An exception, as far as the program's handlers tell exceptions apart:
    [except requests.exceptions.RequestException], [except
    json.JSONDecodeError], and [str(e)].  Every exception here is an
    [Exception]. *)
Record exn := {
  is_request_exception : bool;
  is_json_decode_error : bool;
  exn_str : string
}.

(** The reading of [datetime.now()], in the two renderings the program
    uses. *)
Record datetime := {
  strftime_ymd : string;    (* .strftime('%Y-%m-%d') *)
  isoformat : string        (* .isoformat() *)
}.

(** [round(n / 1024, 2)], counted in hundredths: the quotient is exact in
    binary, so [round] rounds a true tie to the even neighbour. *)
Definition round_kb (n : Z) : Z :=
  let q := (n * 100) `div` 1024 in
  let r := (n * 100) `mod` 1024 in
  if 2 * r <? 1024 then q
  else if 1024 <? 2 * r then q + 1
  else if Z.even q then q else q + 1.

End Py.

Export Py.

(** ** The collaborators of the extractor *)

(** A [requests.Response], by what the extractor reads of it. *)
Record response := {
  status_code : Z;
  reason : string;
  response_url : string;
  header_content_type : option string;   (* headers.get('content-type') *)
  content_length : Z;                    (* len(response.content) *)
  text : string;                         (* response.text *)
  json_ : exn + json                     (* response.json() *)
}.

(** A [<script>] element of a parsed document. *)
Record script := {
  attrs : gmap string string;
  string_ : option string    (* script.string: the text child, if any *)
}.

Class Libs := {
  (** [json.loads(s)]; [None] when it raises. *)
  json_loads : string -> option json;
  (** [BeautifulSoup(html, 'html.parser').find_all('script')], in document
      order. *)
  find_all_script : string -> exn + list script;
  (** [urlparse(url).scheme] *)
  urlparse_scheme : string -> exn + string;
  (** [session.get(url, timeout=15, allow_redirects=True)] *)
  session_get : string -> exn + response;
  (** What is raised on a URL that is not a string ([urlparse] cannot
      decode it, or ['https://' + url] cannot be formed). *)
  urlparse_type_error : json -> exn
}.

(** [response.raise_for_status()]: an [HTTPError], which is a
    [RequestException], on a 4xx or 5xx status. *)
Definition http_error (r : response) (kind : string) : exn :=
  {| is_request_exception := true;
     is_json_decode_error := false;
     exn_str := pretty (status_code r) +:+ kind +:+ reason r
                +:+ " for url: " +:+ response_url r |}.

Definition raise_for_status (r : response) : option exn :=
  if (400 <=? status_code r) && (status_code r <? 500) then
    Some (http_error r " Client Error: ")
  else if (500 <=? status_code r) && (status_code r <? 600) then
    Some (http_error r " Server Error: ")
  else None.

(** ** UniversalJSONExtractor *)

(** One entry of [json_objects]: the dictionary with the keys ['type'],
    ['data'] and, for a script tag, ['script_type']. *)
Record extracted := {
  obj_type : string;
  obj_data : json;
  obj_script_type : option string
}.

(** The dictionary [results] of [extract_json_from_url]. *)
Record results := {
  success : bool;
  url : json;
  data : json;                       (* [None] is [JNull] *)
  json_objects : list extracted;
  error : option string;
  content_type : option string;
  size_kb : Z;                       (* in hundredths *)
  extraction_method : option string;
  timestamp : string
}.

Definition set_content_type (v : string) (r : results) : results :=
  {| success := success r; url := url r; data := data r;
     json_objects := json_objects r; error := error r;
     content_type := Some v; size_kb := size_kb r;
     extraction_method := extraction_method r; timestamp := timestamp r |}.

Definition set_size_kb (v : Z) (r : results) : results :=
  {| success := success r; url := url r; data := data r;
     json_objects := json_objects r; error := error r;
     content_type := content_type r; size_kb := v;
     extraction_method := extraction_method r; timestamp := timestamp r |}.

Definition set_error (v : string) (r : results) : results :=
  {| success := success r; url := url r; data := data r;
     json_objects := json_objects r; error := Some v;
     content_type := content_type r; size_kb := size_kb r;
     extraction_method := extraction_method r; timestamp := timestamp r |}.

(** The dictionary as [extract_json_from_url] first builds it. *)
Definition initial_results (u : json) (now : datetime) : results :=
  {| success := false; url := u; data := JNull; json_objects := [];
     error := None; content_type := None; size_kb := 0;
     extraction_method := None; timestamp := isoformat now |}.

(** The four assignments of a strategy that found something:
    [results['data']] (only the two whole-body strategies set it),
    [results['json_objects']], [results['extraction_method']] and
    [results['success'] = True]. *)
Definition set_found (d : option json) (objs : list extracted) (method : string)
    (r : results) : results :=
  {| success := true; url := url r;
     data := match d with Some json_data => json_data | None => data r end;
     json_objects := objs; error := error r;
     content_type := content_type r; size_kb := size_kb r;
     extraction_method := Some method; timestamp := timestamp r |}.

(** The pattern texts of [find_json_objects]. *)
Definition pattern_nested : string := "\{[^{}]*\{[^{}]*\}[^{}]*\}".
Definition pattern_flat : string :=
  "\{[^{}]*" +:+ Str.DQ +:+ "[^{}]*" +:+ Str.DQ +:+ ":[^{}]*\}[^{}]*".
Definition pattern_array : string := "\[[^\[\]]*\{[^\[\]]*\}[^\[\]]*\]".

Definition patterns : list string := [pattern_nested; pattern_flat; pattern_array].

(** [find_json_objects]: [matches.extend(re.findall(pattern, text))] for
    each pattern in turn. *)
Definition find_json_objects (text : string) : list string :=
  fold_left
    (fun matches pattern => matches ++ default [] (Re.findall pattern text))
    patterns [].

Section Extractor.

Context {L : Libs}.

(** The inner loop of [extract_json_from_script_tags] and the loop of
    [extract_json_from_text]: [json.loads] each match, append on
    success, [continue] on any exception. *)
Definition load_matches (mk : json -> extracted)
    (json_matches : list string) (json_objects : list extracted) : list extracted :=
  fold_left
    (fun objs json_match =>
       match json_loads json_match with
       | Some json_data => objs ++ [mk json_data]
       | None => objs
       end)
    json_matches json_objects.

Definition script_tag_object (s : script) (json_data : json) : extracted :=
  {| obj_type := "script_tag";
     obj_data := json_data;
     obj_script_type := Some (default "unknown" (attrs s !! "type")) |}.

Definition extract_json_from_script_tags (html_content : string) : exn + list extracted :=
  match find_all_script html_content with
  | inl e => inl e
  | inr script_tags =>
      inr (fold_left
             (fun json_objects s =>
                match string_ s with
                | Some script_content =>
                    if Str.truthy script_content then
                      load_matches (script_tag_object s)
                        (find_json_objects script_content) json_objects
                    else json_objects
                | None => json_objects
                end)
             script_tags [])
  end.

Definition json_ld_object (json_data : json) : extracted :=
  {| obj_type := "json_ld"; obj_data := json_data; obj_script_type := None |}.

(** [soup.find_all('script', type='application/ld+json')]: the script
    elements whose [type] attribute is that string. *)
Definition is_json_ld (s : script) : bool :=
  match attrs s !! "type" with
  | Some t => String.eqb t "application/ld+json"
  | None => false
  end.

Definition extract_json_ld (html_content : string) : exn + list extracted :=
  match find_all_script html_content with
  | inl e => inl e
  | inr script_tags =>
      inr (fold_left
             (fun json_objects s =>
                match string_ s with
                | Some script_content =>
                    if Str.truthy script_content then
                      match json_loads script_content with
                      | Some json_data => json_objects ++ [json_ld_object json_data]
                      | None => json_objects
                      end
                    else json_objects
                | None => json_objects
                end)
             (filter (fun s => is_json_ld s = true) script_tags) [])
  end.

Definition text_pattern_object (json_data : json) : extracted :=
  {| obj_type := "text_pattern"; obj_data := json_data; obj_script_type := None |}.

Definition extract_json_from_text (text : string) : list extracted :=
  load_matches text_pattern_object (find_json_objects text) [].

Definition whole_body_object (kind : string) (json_data : json) : extracted :=
  {| obj_type := kind; obj_data := json_data; obj_script_type := None |}.

(** The body of the [try] block from "Method 1" on.  The result is the
    dictionary as it stands when the block is left, and the exception
    that left it, if one did. *)
Definition method_5 (resp : response) (r : results) : results * option exn :=
  match json_ resp with
  | inr json_data =>
      (set_found (Some json_data) [whole_body_object "forced_json" json_data]
         "forced_json" r, None)
  | inl _ => (set_error "No JSON data found in the provided URL" r, None)
  end.

Definition method_4 (resp : response) (r : results) : results * option exn :=
  match extract_json_from_text (text resp) with
  | [] => method_5 resp r
  | text_json_objects => (set_found None text_json_objects "text_patterns" r, None)
  end.

Definition method_3 (resp : response) (r : results) : results * option exn :=
  match extract_json_ld (text resp) with
  | inl e => (r, Some e)
  | inr [] => method_4 resp r
  | inr json_ld_objects => (set_found None json_ld_objects "json_ld" r, None)
  end.

Definition method_2 (resp : response) (r : results) : results * option exn :=
  match extract_json_from_script_tags (text resp) with
  | inl e => (r, Some e)
  | inr [] => method_3 resp r
  | inr json_objects => (set_found None json_objects "script_tags" r, None)
  end.

Definition method_1 (resp : response) (r : results) : results * option exn :=
  if Str.contains "application/json" (default "" (content_type r)) then
    match json_ resp with
    | inr json_data =>
        (set_found (Some json_data) [whole_body_object "direct_json" json_data]
           "direct_json" r, None)
    | inl e =>
        if is_json_decode_error e then method_2 resp r else (r, Some e)
    end
  else method_2 resp r.

(** The [try] block: the dictionary when the block is left, the exception
    that left it, and the URLs handed to [session.get]. *)
Definition try_block (u : json) (r : results) : results * option exn * list string :=
  match u with
  | JStr u =>
      match urlparse_scheme u with
      | inl e => (r, Some e, [])
      | inr scheme =>
          let u := if Str.truthy scheme then u else "https://" +:+ u in
          match session_get u with
          | inl e => (r, Some e, [u])
          | inr resp =>
              match raise_for_status resp with
              | Some e => (r, Some e, [u])
              | None =>
                  let r := set_content_type (default "" (header_content_type resp)) r in
                  let r := set_size_kb (round_kb (content_length resp)) r in
                  (method_1 resp r, [u])
              end
          end
      end
  | _ => (r, Some (urlparse_type_error u), [])
  end.

(** [extract_json_from_url(url)] at clock reading [now]: the dictionary
    returned, and the URLs fetched on the way. *)
Definition extract_json_from_url (u : json) (now : datetime) : results * list string :=
  let r := initial_results u now in
  match try_block u r with
  | (r, None, fetched) => (r, fetched)
  | (r, Some e, fetched) =>
      if is_request_exception e then
        (set_error ("Failed to fetch the URL: " +:+ exn_str e) r, fetched)
      else
        (set_error ("Extraction error: " +:+ exn_str e) r, fetched)
  end.

(** *** The strategies as the specification words them

    Each strategy looks at the response and yields objects, yields
    nothing, or faults; they are tried in a fixed order and the first
    that yields decides the result. *)

Inductive attempt :=
| Yields (d : option json) (first : extracted) (others : list extracted)
| Nothing
| Faults (e : exn).

Definition yield (objs : list extracted) : attempt :=
  match objs with
  | [] => Nothing
  | o :: os => Yields None o os
  end.

Definition direct_json (resp : response) : attempt :=
  if Str.contains "application/json" (default "" (header_content_type resp)) then
    match json_ resp with
    | inr j => Yields (Some j) (whole_body_object "direct_json" j) []
    | inl e => if is_json_decode_error e then Nothing else Faults e
    end
  else Nothing.

Definition script_tags (resp : response) : attempt :=
  match extract_json_from_script_tags (text resp) with
  | inl e => Faults e
  | inr objs => yield objs
  end.

Definition json_ld (resp : response) : attempt :=
  match extract_json_ld (text resp) with
  | inl e => Faults e
  | inr objs => yield objs
  end.

Definition text_patterns (resp : response) : attempt :=
  yield (extract_json_from_text (text resp)).

Definition forced_json (resp : response) : attempt :=
  match json_ resp with
  | inr j => Yields (Some j) (whole_body_object "forced_json" j) []
  | inl _ => Nothing
  end.

Definition strategies : list (string * (response -> attempt)) :=
  [("direct_json", direct_json); ("script_tags", script_tags);
   ("json_ld", json_ld); ("text_patterns", text_patterns);
   ("forced_json", forced_json)].

Fixpoint first_yielding (l : list (string * (response -> attempt)))
    (resp : response) (r : results) : results * option exn :=
  match l with
  | [] => (set_error "No JSON data found in the provided URL" r, None)
  | (name, strategy) :: l' =>
      match strategy resp with
      | Yields d o os => (set_found d (o :: os) name r, None)
      | Nothing => first_yielding l' resp r
      | Faults e => (r, Some e)
      end
  end.

(** The fetch of [u] went through: [urlparse] gave [scheme], the session
    answered the URL [fetched] with [resp], and the status is no error. *)
Definition fetches (u : string) (fetched : string) (resp : response) : Prop :=
  ∃ scheme, urlparse_scheme u = inr scheme ∧
            fetched = (if Str.truthy scheme then u else "https://" +:+ u) ∧
            session_get fetched = inr resp ∧
            raise_for_status resp = None.

End Extractor.

(** *** The shapes of the result *)

(** The dictionary before any strategy has found anything. *)
Definition blank (r : results) : Prop :=
  success r = false ∧ error r = None ∧ json_objects r = [] ∧
  extraction_method r = None ∧ data r = JNull.

Definition method_names : list string :=
  ["direct_json"; "script_tags"; "json_ld"; "text_patterns"; "forced_json"].

(** How the [try] block can be left: by an exception, with the dictionary
    still blank; by the [return] of a strategy that found something; or at
    its end, with the "No JSON data" message. *)
Definition left_as (r0 : results) (out : results * option exn) : Prop :=
  url out.1 = url r0 ∧ timestamp out.1 = timestamp r0 ∧
  match out.2 with
  | Some _ => blank out.1
  | None =>
      (success out.1 = true ∧ error out.1 = None ∧ json_objects out.1 ≠ [] ∧
       ∃ name, extraction_method out.1 = Some name ∧ name ∈ method_names) ∨
      (success out.1 = false ∧ json_objects out.1 = [] ∧
       extraction_method out.1 = None ∧ data out.1 = JNull ∧
       error out.1 = Some "No JSON data found in the provided URL")
  end.

(** The dictionary of a call that the exception [e] has left: no
    [success], no object, no method, and as [error] the message of the
    handler that caught [e], the first for an exception of [requests] and
    the second for any other. *)
Definition failed_with (e : exn) (r : results) : Prop :=
  success r = false ∧ json_objects r = [] ∧ extraction_method r = None ∧
  error r = Some ((if is_request_exception e then "Failed to fetch the URL: "
                   else "Extraction error: ") +:+ exn_str e).

(** The strategies of [l] all yield nothing for [resp]. *)
Definition yield_nothing (l : list (string * (response -> attempt)))
    (resp : response) : Prop :=
  Forall (fun s => s.2 resp = Nothing) l.

(** ** Executable models of the collaborators

    Enough of [json.loads], of [html.parser] under [bs4] and of [urlparse]
    to run the extractor on concrete documents.  The theorems that hold for
    every response are proved over [Libs], not over these models. *)

Module Model.

Definition code (a : ascii) : Z := Z.of_N (N_of_ascii a).

Definition is_digit (a : ascii) : bool := (48 <=? code a) && (code a <=? 57).
Definition is_upper (a : ascii) : bool := (65 <=? code a) && (code a <=? 90).
Definition is_lower (a : ascii) : bool := (97 <=? code a) && (code a <=? 122).
Definition is_alpha (a : ascii) : bool := is_upper a || is_lower a.

Definition lower (a : ascii) : ascii :=
  if is_upper a then ascii_of_N (Z.to_N (code a + 32)) else a.

Fixpoint lower_str (s : string) : string :=
  match s with
  | EmptyString => EmptyString
  | String a s' => String (lower a) (lower_str s')
  end.

(** Longest prefix whose characters satisfy [p], and the rest. *)
Fixpoint span (p : ascii -> bool) (s : string) : string * string :=
  match s with
  | EmptyString => (EmptyString, EmptyString)
  | String a s' =>
      if p a then let '(m, r) := span p s' in (String a m, r)
      else (EmptyString, s)
  end.

(** *** json.loads *)

Definition is_ws (a : ascii) : bool := Str.mem a [" "%char; Str.tab; Str.lf; Str.cr].

Definition skip_ws (s : string) : string := snd (span is_ws s).

Definition hex_value (a : ascii) : option Z :=
  if is_digit a then Some (code a - 48)
  else if (97 <=? code a) && (code a <=? 102) then Some (code a - 87)
  else if (65 <=? code a) && (code a <=? 70) then Some (code a - 55)
  else None.

(** The character of an escape [\uXXXX]; code points above 255 are
    outside the model. *)
Definition unicode_escape (h1 h2 h3 h4 : ascii) : option ascii :=
  a ← hex_value h1; b ← hex_value h2; c ← hex_value h3; d ← hex_value h4;
  let n := ((a * 16 + b) * 16 + c) * 16 + d in
  if n <? 256 then Some (ascii_of_N (Z.to_N n)) else None.

Definition simple_escape (a : ascii) : option ascii :=
  if Ascii.eqb a Str.dq then Some Str.dq
  else if Ascii.eqb a "\" then Some "\"%char
  else if Ascii.eqb a "/" then Some "/"%char
  else if Ascii.eqb a "b" then Some Str.bs
  else if Ascii.eqb a "f" then Some Str.ff
  else if Ascii.eqb a "n" then Some Str.lf
  else if Ascii.eqb a "r" then Some Str.cr
  else if Ascii.eqb a "t" then Some Str.tab
  else None.

(** The text of a string literal after its opening quote, and what
    follows the closing quote (strict mode: no raw control character). *)
Fixpoint scan_string (s : string) : option (string * string) :=
  match s with
  | EmptyString => None
  | String a s' =>
      if Ascii.eqb a Str.dq then Some (EmptyString, s')
      else if Ascii.eqb a "\" then
        match s' with
        | String "u" (String h1 (String h2 (String h3 (String h4 r)))) =>
            c ← unicode_escape h1 h2 h3 h4;
            '(m, r') ← scan_string r; Some (String c m, r')
        | String e r =>
            c ← simple_escape e;
            '(m, r') ← scan_string r; Some (String c m, r')
        | EmptyString => None
        end
      else if code a <? 32 then None
      else '(m, r') ← scan_string s'; Some (String a m, r')
  end.

Fixpoint decimal (acc : Z) (digits : string) : Z :=
  match digits with
  | EmptyString => acc
  | String a r => decimal (acc * 10 + (code a - 48)) r
  end.

Definition all_zero (digits : string) : bool :=
  forallb (fun a => Ascii.eqb a "0") (Str.chars digits).

(** A number at the start of [s], as the scanner reads one: an optional
    minus sign, then a zero or a run of digits that does not start with
    zero, then an optional fraction (a dot and digits) and an optional
    exponent (e or E, an optional sign, digits).  It is an [int] when it
    has neither fraction nor exponent, a [float] otherwise. *)
Definition scan_number (s : string) : option (json * string) :=
  let '(sign, s1) :=
    match s with String "-" r => ("-", r) | _ => (EmptyString, s) end in
  '(int_part, s2) ←
    match s1 with
    | String "0" r => Some ("0", r)
    | String a _ =>
        if is_digit a then Some (span is_digit s1) else None
    | EmptyString => None
    end;
  let '(frac, s3) :=
    match s2 with
    | String "." r =>
        match span is_digit r with
        | (EmptyString, _) => (EmptyString, s2)
        | (ds, r') => (ds, r')
        end
    | _ => (EmptyString, s2)
    end in
  let '(expo, s4) :=
    match s3 with
    | String e r =>
        if Ascii.eqb e "e" || Ascii.eqb e "E" then
          let '(esign, r1) :=
            match r with
            | String "+" r' => ("+", r')
            | String "-" r' => ("-", r')
            | _ => (EmptyString, r)
            end in
          match span is_digit r1 with
          | (EmptyString, _) => (EmptyString, s3)
          | (ds, r') => (String e (esign +:+ ds), r')
          end
        else (EmptyString, s3)
    | EmptyString => (EmptyString, s3)
    end in
  match frac, expo with
  | EmptyString, EmptyString =>
      let n := decimal 0 int_part in
      Some (JInt (if Str.truthy sign then - n else n), s4)
  | _, _ =>
      let dot := if Str.truthy frac then "." +:+ frac else EmptyString in
      Some (JFloat {| float_repr := sign +:+ int_part +:+ dot +:+ expo;
                      float_is_zero := all_zero int_part && all_zero frac |},
            s4)
  end.

Definition constant (name : string) (v : json) (s : string) : option (json * string) :=
  if Str.startswith name s then Some (v, Str.drop (String.length name) s)
  else None.

Definition not_a_number (repr : string) : json :=
  JFloat {| float_repr := repr; float_is_zero := false |}.

(** The scanner: one value at the start of [s] (no leading white space),
    and the rest.  [fuel] bounds the calls; the length of the text is
    enough, each call being on a shorter text. *)
Fixpoint scan_once (fuel : nat) (s : string) : option (json * string) :=
  match fuel with
  | O => None
  | S fuel =>
      match s with
      | EmptyString => None
      | String a r =>
          if Ascii.eqb a Str.dq then
            '(str, r') ← scan_string r; Some (JStr str, r')
          else if Ascii.eqb a "{" then
            match skip_ws r with
            | String "}" r' => Some (JObj [], r')
            | r' => '(m, r'') ← scan_members fuel [] r'; Some (JObj m, r'')
            end
          else if Ascii.eqb a "[" then
            match skip_ws r with
            | String "]" r' => Some (JArr [], r')
            | r' => '(l, r'') ← scan_items fuel [] r'; Some (JArr l, r'')
            end
          else if Ascii.eqb a "n" && Str.startswith "null" s then constant "null" JNull s
          else if Ascii.eqb a "t" && Str.startswith "true" s then constant "true" (JBool true) s
          else if Ascii.eqb a "f" && Str.startswith "false" s then constant "false" (JBool false) s
          else
            match scan_number s with
            | Some v => Some v
            | None =>
                if Ascii.eqb a "N" then constant "NaN" (not_a_number "nan") s
                else if Ascii.eqb a "I" then constant "Infinity" (not_a_number "inf") s
                else if Ascii.eqb a "-" then constant "-Infinity" (not_a_number "-inf") s
                else None
            end
      end
  end

(** The members of an object from a key on: ["key" : value] then [}] or
    [,] and the next key. *)
with scan_members (fuel : nat) (acc : list (string * json)) (s : string)
    : option (list (string * json) * string) :=
  match fuel with
  | O => None
  | S fuel =>
      match s with
      | String a r =>
          if Ascii.eqb a Str.dq then
            '(key, r1) ← scan_string r;
            match skip_ws r1 with
            | String ":" r2 =>
                '(v, r3) ← scan_once fuel (skip_ws r2);
                let acc := Py.dict_set key v acc in
                match skip_ws r3 with
                | String "}" r4 => Some (acc, r4)
                | String "," r4 => scan_members fuel acc (skip_ws r4)
                | _ => None
                end
            | _ => None
            end
          else None
      | EmptyString => None
      end
  end

(** The items of an array from a value on: [value] then [\]] or [,]. *)
with scan_items (fuel : nat) (acc : list json) (s : string)
    : option (list json * string) :=
  match fuel with
  | O => None
  | S fuel =>
      '(v, r1) ← scan_once fuel s;
      let acc := acc ++ [v] in
      match skip_ws r1 with
      | String "]" r2 => Some (acc, r2)
      | String "," r2 => scan_items fuel acc (skip_ws r2)
      | _ => None
      end
  end.

(** [json.loads(s)]: one value between optional white space, and
    nothing after it. *)
Definition loads (s : string) : option json :=
  '(v, r) ← scan_once (S (String.length s)) (skip_ws s);
  match skip_ws r with
  | EmptyString => Some v
  | _ => None
  end.

(** *** html.parser under bs4: the script elements of a document

    The model reads a document in which a [<] opens a tag or a comment:
    a comment is passed over, a [<script ...>] start tag is read with its
    attributes (names in lower case, a later duplicate replacing the
    earlier value, no value giving the empty string), and the text up to
    the closing [</script] (or the end of the document) is its content,
    taken as it is.  Character references in attribute values are
    outside the model. *)

Definition is_space (a : ascii) : bool :=
  Str.mem a [" "%char; Str.tab; Str.lf; Str.cr; Str.ff].

Definition skip_space (s : string) : string := snd (span is_space s).

Definition prefix_ci (p s : string) : bool :=
  Str.startswith p (lower_str (substring 0 (String.length p) s)).

(** What follows the first occurrence of [stop] in [s] (nothing when
    there is none). *)
Fixpoint after (stop : string) (s : string) : string :=
  if Str.startswith stop s then Str.drop (String.length stop) s
  else match s with
       | EmptyString => EmptyString
       | String _ r => after stop r
       end.

Definition attr_name_char (a : ascii) : bool :=
  negb (is_space a || Str.mem a ["="%char; ">"%char; "/"%char]).

(** The attributes of a start tag, from after the tag name up to its
    [>]; [None] when the tag is never closed. *)
Fixpoint scan_attrs (fuel : nat) (acc : gmap string string) (s : string)
    : option (gmap string string * string) :=
  match fuel with
  | O => None
  | S fuel =>
      match s with
      | EmptyString => None
      | String a r =>
          if is_space a || Ascii.eqb a "/" then scan_attrs fuel acc r
          else if Ascii.eqb a ">" then Some (acc, r)
          else
            let '(name_tail, r1) := span attr_name_char r in
            let name := lower_str (String a name_tail) in
            match skip_space r1 with
            | String "=" r2 =>
                match skip_space r2 with
                | EmptyString => None
                | String q r3 =>
                    if Ascii.eqb q Str.dq || Ascii.eqb q "'" then
                      let '(v, r4) := span (fun c => negb (Ascii.eqb c q)) r3 in
                      match r4 with
                      | EmptyString => None
                      | String _ r5 => scan_attrs fuel (<[name := v]> acc) r5
                      end
                    else
                      let '(v, r4) :=
                        span (fun c => negb (is_space c || Ascii.eqb c ">"))
                          (String q r3) in
                      scan_attrs fuel (<[name := v]> acc) r4
                end
            | r2 => scan_attrs fuel (<[name := EmptyString]> acc) r2
            end
      end
  end.

(** The content of a script element and what follows its end tag. *)
Fixpoint until_close (s : string) : string * string :=
  if prefix_ci "</script" s then (EmptyString, after ">" s)
  else match s with
       | EmptyString => (EmptyString, EmptyString)
       | String a r => let '(c, r') := until_close r in (String a c, r')
       end.

Definition tag_name_ends (s : string) : bool :=
  match s with
  | EmptyString => false
  | String a _ => is_space a || Str.mem a [">"%char; "/"%char]
  end.

Fixpoint scan_scripts (fuel : nat) (s : string) : list script :=
  match fuel with
  | O => []
  | S fuel =>
      match s with
      | EmptyString => []
      | String _ r =>
          if Str.startswith "<!--" s then
            scan_scripts fuel (after "-->" (Str.drop 4 s))
          else if prefix_ci "<script" s && tag_name_ends (Str.drop 7 s) then
            match scan_attrs fuel ∅ (Str.drop 7 s) with
            | Some (a, r1) =>
                let '(c, r2) := until_close r1 in
                {| attrs := a;
                   string_ := if Str.truthy c then Some c else None |}
                  :: scan_scripts fuel r2
            | None => scan_scripts fuel r
            end
          else scan_scripts fuel r
      end
  end.

Definition script_elements (html : string) : exn + list script :=
  inr (scan_scripts (S (String.length html)) html).

(** *** urlparse: the scheme of a URL *)

Definition scheme_char (a : ascii) : bool :=
  is_alpha a || is_digit a || Str.mem a ["+"%char; "-"%char; "."%char].

Definition value_error (msg : string) : exn :=
  {| is_request_exception := false; is_json_decode_error := false;
     exn_str := msg |}.

Fixpoint remove_chars (cs : list ascii) (s : string) : string :=
  match s with
  | EmptyString => EmptyString
  | String a r =>
      if Str.mem a cs then remove_chars cs r else String a (remove_chars cs r)
  end.

(** [urlparse(url).scheme]: leading control characters and spaces are
    stripped, tabs and line ends removed; the scheme is the text before
    the first colon when it starts with a letter and is made of scheme
    characters, in lower case, and empty otherwise.  A network location that
    has one square bracket and not the other is a [ValueError]. *)
Definition scheme_of (u : string) : exn + string :=
  let u := snd (span (fun a => code a <=? 32) u) in
  let u := remove_chars [Str.tab; Str.cr; Str.lf] u in
  let '(head, tail) := span (fun a => negb (Ascii.eqb a ":")) u in
  let '(scheme, rest) :=
    match head, tail with
    | String a _, String _ tail' =>
        if is_alpha a && forallb scheme_char (Str.chars head)
        then (lower_str head, tail') else (EmptyString, u)
    | _, _ => (EmptyString, u)
    end in
  if Str.startswith "//" rest then
    let netloc :=
      fst (span (fun a => negb (Str.mem a ["/"%char; "?"%char; "#"%char]))
             (Str.drop 2 rest)) in
    if xorb (Str.contains "[" netloc) (Str.contains "]" netloc)
    then inl (value_error "Invalid IPv6 URL")
    else inr scheme
  else inr scheme.

(** *** requests: a session serving fixed pages *)

Definition json_decode_error : exn :=
  {| is_request_exception := true; is_json_decode_error := true;
     exn_str := "Expecting value" |}.

Definition connection_error : exn :=
  {| is_request_exception := true; is_json_decode_error := false;
     exn_str := "Connection refused" |}.

(** The response to a request answered with status [status], the given
    [content-type] header and body. *)
Definition page (status : Z) (ctype : option string) (body : string) (u : string)
    : response :=
  {| status_code := status;
     reason := if status =? 200 then "OK" else "Error";
     response_url := u;
     header_content_type := ctype;
     content_length := Z.of_nat (String.length body);
     text := body;
     json_ := match loads body with
              | Some j => inr j
              | None => inl json_decode_error
              end |}.

(** A session in which the URL [at] answers with [p] and every other
    connection fails. *)
Definition serve (at_ : string) (p : string -> response) (u : string) : exn + response :=
  if String.eqb u at_ then inr (p u) else inl connection_error.

Definition attribute_error (v : json) : exn :=
  {| is_request_exception := false; is_json_decode_error := false;
     exn_str := "object has no attribute 'decode'" |}.

Definition libs (get : string -> exn + response) : Libs :=
  {| json_loads := loads;
     find_all_script := script_elements;
     urlparse_scheme := scheme_of;
     session_get := get;
     urlparse_type_error := attribute_error |}.

End Model.

(** ** APIKeyManager *)

(** The value stored under an API key in [self.api_keys]. *)
Record key_data := {
  user_email : string;
  api_key : string;
  plan_type : string;
  requests_per_day : Z;
  rate_limit : Z;
  created_at : string;
  is_active : bool;
  total_requests : Z;
  last_used : option string
}.

(** The two dictionaries of the manager, as they stand in memory:
    [api_keys] by key, [usage_data] by day and then by key. *)
Record manager := {
  api_keys : gmap string key_data;
  usage_data : gmap string (gmap string Z)
}.

(** What [load_data] gives for a missing, empty or invalid file. *)
Definition empty_manager : manager := {| api_keys := ∅; usage_data := ∅ |}.

Definition ascii_letters : string :=
  "abcdefghijklmnopqrstuvwxyzABCDEFGHIJKLMNOPQRSTUVWXYZ".
Definition digits : string := "0123456789".

(** [secrets.choice(seq)], the random source having drawn [n]. *)
Definition choice (seq : string) (n : nat) : ascii :=
  nth (n mod String.length seq)%nat (Str.chars seq) "a"%char.

(** [generate_api_key()]; [draw i] is what the random source gives for the
    [i]-th character. *)
Definition generate_api_key (draw : nat -> nat) : string :=
  let charset := ascii_letters +:+ digits in
  "api_" +:+ string_of_list_ascii (map (fun i => choice charset (draw i)) (seq 0 32)).

Record plan_limits := { lim_requests_per_day : Z; lim_rate_limit : Z }.

#[global] Instance plan_limits_inhabited : Inhabited plan_limits :=
  populate {| lim_requests_per_day := 0; lim_rate_limit := 0 |}.

(** The table [limits] of [create_api_key]. *)
Definition limits : gmap string plan_limits :=
  <["enterprise" := {| lim_requests_per_day := 10000; lim_rate_limit := 1000 |}]>
  (<["premium" := {| lim_requests_per_day := 1000; lim_rate_limit := 100 |}]>
  (<["free" := {| lim_requests_per_day := 100; lim_rate_limit := 10 |}]> ∅)).

(** [create_api_key(user_email, plan_type)]: the key, its record, and the
    manager afterwards. *)
Definition create_api_key (user_email plan_type : string)
    (draw : nat -> nat) (now : datetime) (st : manager)
    : string * key_data * manager :=
  let api_key := generate_api_key draw in
  let plan_limits := default (limits !!! "free") (limits !! plan_type) in
  let key_data :=
    {| user_email := user_email;
       api_key := api_key;
       plan_type := plan_type;
       requests_per_day := lim_requests_per_day plan_limits;
       rate_limit := lim_rate_limit plan_limits;
       created_at := isoformat now;
       is_active := true;
       total_requests := 0;
       last_used := None |} in
  (api_key, key_data,
   {| api_keys := <[api_key := key_data]> (api_keys st);
      usage_data := usage_data st |}).

(** [if today not in self.usage_data: self.usage_data[today] = {}] and
    [if api_key not in self.usage_data[today]: self.usage_data[today][api_key] = 0]. *)
Definition open_ledger (today api_key : string)
    (usage : gmap string (gmap string Z)) : gmap string (gmap string Z) :=
  let usage :=
    match usage !! today with
    | None => <[today := ∅]> usage
    | Some _ => usage
    end in
  match (usage !!! today) !! api_key with
  | None => <[today := <[api_key := 0]> (usage !!! today)]> usage
  | Some _ => usage
  end.

(** [self.usage_data.get(today, {}).get(api_key, 0)]: the count of the key
    on a day, zero where the ledger has no entry. *)
Definition usage_get (today api_key : string) (usage : gmap string (gmap string Z)) : Z :=
  default 0 (default ∅ (usage !! today) !! api_key).

(** [self.usage_data[today][api_key]] *)
Definition usage_on (today api_key : string) (usage : gmap string (gmap string Z)) : Z :=
  (usage !!! today) !!! api_key.

(** The pair [validate_api_key] returns: [(True, key_data)] or
    [(False, message)]. *)
Inductive validation :=
| Valid (kd : key_data)
| Invalid (message : string).

Definition validate_api_key (api_key : string) (now : datetime) (st : manager)
    : validation * manager :=
  match api_keys st !! api_key with
  | None => (Invalid "Invalid API key", st)
  | Some key_data =>
      if negb (is_active key_data) then (Invalid "API key is inactive", st)
      else
        let today := strftime_ymd now in
        let usage := open_ledger today api_key (usage_data st) in
        let st := {| api_keys := api_keys st; usage_data := usage |} in
        if requests_per_day key_data <=? usage_on today api_key usage then
          (Invalid "Daily request limit exceeded", st)
        else (Valid key_data, st)
  end.

Definition key_error (k : string) : exn :=
  {| is_request_exception := false; is_json_decode_error := false;
     exn_str := "'" +:+ k +:+ "'" |}.

Definition used (now : datetime) (kd : key_data) : key_data :=
  {| user_email := user_email kd;
     api_key := api_key kd;
     plan_type := plan_type kd;
     requests_per_day := requests_per_day kd;
     rate_limit := rate_limit kd;
     created_at := created_at kd;
     is_active := is_active kd;
     total_requests := total_requests kd + 1;
     last_used := Some (isoformat now) |}.

(** [record_usage(api_key)]; [now] is the clock read for [today], [now']
    the clock read for [last_used].  On a key without a record the ledger
    has been written when [self.api_keys[api_key]] raises [KeyError]. *)
Definition record_usage (api_key : string) (now now' : datetime) (st : manager)
    : manager * option exn :=
  let today := strftime_ymd now in
  let usage := open_ledger today api_key (usage_data st) in
  let usage :=
    <[today := <[api_key := usage_on today api_key usage + 1]> (usage !!! today)]> usage in
  match api_keys st !! api_key with
  | None => ({| api_keys := api_keys st; usage_data := usage |}, Some (key_error api_key))
  | Some kd =>
      ({| api_keys := <[api_key := used now' kd]> (api_keys st);
          usage_data := usage |}, None)
  end.

(** The ledger after [record_usage]: one more for the key on the day. *)
Definition ledger_after (d k : string) (u : gmap string (gmap string Z))
    : gmap string (gmap string Z) :=
  let usage := open_ledger d k u in
  <[d := <[k := usage_on d k usage + 1]> (usage !!! d)]> usage.

(** [record_usage(api_key)] once for each pair of clock readings of
    [times], in order. *)
Definition record_all (api_key : string) (times : list (datetime * datetime))
    (st : manager) : manager :=
  fold_left (fun st t => (record_usage api_key t.1 t.2 st).1) times st.

(** The dictionary [get_key_stats] returns. *)
Record key_stats := {
  stats_api_key : string;
  stats_user_email : string;
  stats_plan_type : string;
  stats_today_usage : Z;
  stats_daily_limit : Z;
  stats_total_requests : Z;
  stats_last_used : option string;
  stats_created_at : string
}.

Definition get_key_stats (api_key : string) (now : datetime) (st : manager)
    : option key_stats :=
  match api_keys st !! api_key with
  | None => None
  | Some key_data =>
      let today := strftime_ymd now in
      let today_usage := usage_get today api_key (usage_data st) in
      Some {| stats_api_key := api_key;
              stats_user_email := user_email key_data;
              stats_plan_type := plan_type key_data;
              stats_today_usage := today_usage;
              stats_daily_limit := requests_per_day key_data;
              stats_total_requests := total_requests key_data;
              stats_last_used := last_used key_data;
              stats_created_at := created_at key_data |}
  end.

(** *** The ledger of a key, summed over the days *)

Definition ledger_total (api_key : string) (usage : gmap string (gmap string Z)) : Z :=
  map_fold (fun _ day acc => acc + default 0 (day !! api_key)) 0 usage.

(** A key's lifetime counter agrees with its ledger. *)
Definition counters_agree (st : manager) : Prop :=
  ∀ k kd, api_keys st !! k = Some kd →
          total_requests kd = ledger_total k (usage_data st).

(** A key is new to the store: no record and no ledger entry carries it. *)
Definition new_key (k : string) (st : manager) : Prop :=
  api_keys st !! k = None ∧
  ∀ day entries, usage_data st !! day = Some entries → entries !! k = None.

(** The operations of the manager, each with what it reads from outside:
    the arguments, the random draws, the clock. *)
Inductive operation :=
| CreateKey (user_email plan_type : string) (draw : nat -> nat) (now : datetime)
| Validate (api_key : string) (now : datetime)
| RecordUsage (api_key : string) (now now' : datetime)
| GetStats (api_key : string) (now : datetime).

Definition perform (o : operation) (st : manager) : manager :=
  match o with
  | CreateKey e p draw now => (create_api_key e p draw now st).2
  | Validate k now => (validate_api_key k now st).2
  | RecordUsage k now now' => (record_usage k now now' st).1
  | GetStats k now => st
  end.

(** The keys are unique: a key that [create_api_key] generates is new to
    the store. *)
Definition unique_key (o : operation) (st : manager) : Prop :=
  match o with
  | CreateKey _ _ draw _ => new_key (generate_api_key draw) st
  | _ => True
  end.

(** Any operation, whatever the store. *)
Definition any_operation (o : operation) (st : manager) : Prop := True.

(** [reaches allowed st st']: some sequence of operations, each allowed in
    the store it is performed in, leads from [st] to [st']. *)
Inductive reaches (allowed : operation -> manager -> Prop) (st : manager)
  : manager -> Prop :=
| reaches_here : reaches allowed st st
| reaches_step o st' :
    reaches allowed st st' -> allowed o st' -> reaches allowed st (perform o st').

(** What the operations keep true of a store: every key is active and has
    a daily limit above zero, and no count of the ledger is negative. *)
Definition well_kept (st : manager) : Prop :=
  (∀ k kd, api_keys st !! k = Some kd →
           is_active kd = true ∧ 0 < requests_per_day kd) ∧
  (∀ d k, 0 ≤ usage_get d k (usage_data st)).

(** ** The route [/api/extract] *)

(** The request, by what the handler reads of it: the two headers and
    [request.json] ([None] when the body carries no JSON). *)
Record request := {
  x_api_key : option string;
  authorization : option string;
  body : option json
}.

Inductive payload :=
| Failure (error_message : string)      (* {'success': False, 'error': ...} *)
| Result (r : results)                  (* jsonify(result) *)
| ServerError (e : exn).                (* an exception no handler caught *)

Record http_response := { status : Z; sent : payload }.

(** The calls the handler makes on the manager and the extractor. *)
Inductive call :=
| CallValidate (api_key : string)
| CallExtract (u : json)
| CallRecordUsage (api_key : string).

(** How many times [record_usage] was called. *)
Fixpoint times_recorded (calls : list call) : nat :=
  match calls with
  | [] => O
  | CallRecordUsage _ :: calls' => S (times_recorded calls')
  | _ :: calls' => times_recorded calls'
  end.

(** The clock readings of one request, in the order they are taken. *)
Record readings := {
  at_validate : datetime;
  at_extract : datetime;
  at_record : datetime;
  at_last_used : datetime
}.

Definition attribute_error_get : exn :=
  {| is_request_exception := false; is_json_decode_error := false;
     exn_str := "object has no attribute 'get'" |}.

(** [request.headers.get('X-API-Key') or
    request.headers.get('Authorization', '').replace('Bearer ', '')] *)
Definition request_key (req : request) : string :=
  let bearer := Str.replace "Bearer " "" (default "" (authorization req)) in
  match x_api_key req with
  | Some k => if Str.truthy k then k else bearer
  | None => bearer
  end.

Section Routes.

Context {L : Libs}.

Definition api_extract_json (req : request) (clock : readings) (st : manager)
    : http_response * manager * list call :=
  let api_key := request_key req in
  if negb (Str.truthy api_key) then
    ({| status := 401; sent := Failure "API key required" |}, st, [])
  else
    match validate_api_key api_key (at_validate clock) st with
    | (Invalid message, st) =>
        ({| status := 401; sent := Failure message |}, st, [CallValidate api_key])
    | (Valid _, st) =>
        let calls := [CallValidate api_key] in
        match body req with
        | None => ({| status := 400; sent := Failure "JSON data required" |}, st, calls)
        | Some data =>
            if negb (Py.truthy data) then
              ({| status := 400; sent := Failure "JSON data required" |}, st, calls)
            else
              match data with
              | JObj members =>
                  match Py.dict_get "url" members with
                  | None =>
                      ({| status := 400; sent := Failure "URL parameter required" |},
                       st, calls)
                  | Some u =>
                      if negb (Py.truthy u) then
                        ({| status := 400; sent := Failure "URL parameter required" |},
                         st, calls)
                      else
                        let result := (extract_json_from_url u (at_extract clock)).1 in
                        let calls := calls ++ [CallExtract u] in
                        match record_usage api_key (at_record clock)
                                (at_last_used clock) st with
                        | (st, Some e) =>
                            ({| status := 500; sent := ServerError e |}, st,
                             calls ++ [CallRecordUsage api_key])
                        | (st, None) =>
                            ({| status := 200; sent := Result result |}, st,
                             calls ++ [CallRecordUsage api_key])
                        end
                  end
              | _ => ({| status := 500; sent := ServerError attribute_error_get |},
                      st, calls)
              end
        end
    end.

End Routes.

(** ** Documents and requests for the examples *)

(** A clock reading for the examples. *)
Definition noon : datetime :=
  {| strftime_ymd := "2024-05-17"; isoformat := "2024-05-17T12:00:00" |}.

(** The text [{"a":1}{"a":1}]: the same object twice. *)
Definition twice_text : string :=
  let obj := "{" +:+ Str.DQ +:+ "a" +:+ Str.DQ +:+ ":1}" in obj +:+ obj.

(** A page of plain text whose body is [{a:{b:1}}]. *)
Definition unquoted_page : Libs :=
  Model.libs (Model.serve "https://example.com"
                (Model.page 200 (Some "text/plain") "{a:{b:1}}")).

(** The text [{"a":1}]. *)
Definition a1_text : string := "{" +:+ Str.DQ +:+ "a" +:+ Str.DQ +:+ ":1}".

(** The object [{a: 1}]. *)
Definition a1 : json := JObj [("a", JInt 1)].

(** An HTML document whose one script element is
    [<script type="application/ld+json">{"a":1}</script>]. *)
Definition ld_document : string :=
  "<html><head><title>t</title><script type=" +:+ Str.DQ +:+ "application/ld+json"
  +:+ Str.DQ +:+ ">" +:+ a1_text
  +:+ "</script></head><body><p>Hello</p></body></html>".

(** The site that serves it as [text/html]. *)
Definition ld_page : Libs :=
  Model.libs (Model.serve "https://example.com"
                (Model.page 200 (Some "text/html") ld_document)).

(** The JSON text [["<script>[{}]</script>"]]: a JSON body that also
    holds a script element with JSON in it. *)
Definition json_with_script : string :=
  "[" +:+ Str.DQ +:+ "<script>[{}]</script>" +:+ Str.DQ +:+ "]".

Definition json_page : Libs :=
  Model.libs (Model.serve "https://example.com"
                (Model.page 200 (Some "application/json") json_with_script)).

(** A manager holding one free key, and the key. *)
Definition one_key : string * key_data * manager :=
  create_api_key "ann@example.com" "free" (fun i => i) noon empty_manager.

(** A request that presents the key and carries no JSON body. *)
Definition request_without_body : request :=
  {| x_api_key := Some one_key.1.1; authorization := None; body := None |}.

(** A request that presents the key and asks for [example.com]. *)
Definition request_for_example : request :=
  {| x_api_key := Some one_key.1.1; authorization := None;
     body := Some (JObj [("url", JStr "example.com")]) |}.

Definition at_noon : readings :=
  {| at_validate := noon; at_extract := noon; at_record := noon;
     at_last_used := noon |}.

(** The script element of [ld_document]. *)
Definition ld_script : script :=
  {| attrs := {[ "type" := "application/ld+json" ]}; string_ := Some a1_text |}.

Definition ld_response : response :=
  Model.page 200 (Some "text/html") ld_document "https://example.com".

Definition json_response : response :=
  Model.page 200 (Some "application/json") json_with_script "https://example.com".

(** The store after the key has been created, validated and used once. *)
Definition used_once : manager :=
  perform (RecordUsage one_key.1.1 noon noon)
    (perform (Validate one_key.1.1 noon)
       (perform (CreateKey "ann@example.com" "free" (fun i => i) noon) empty_manager)).

(** The store after the generator has drawn the key of [used_once] once
    more: [create_api_key] puts a new record under the key, and the ledger
    still holds the request that was recorded for it. *)
Definition repeated_key : manager :=
  perform (CreateKey "bob@example.com" "free" (fun i => i) noon) used_once.

(** A site that answers with status 404 and a JSON body. *)
Definition not_found_response : response :=
  Model.page 404 (Some "application/json") a1_text "https://example.com".

Definition not_found_page : Libs :=
  Model.libs (Model.serve "https://example.com"
                (Model.page 404 (Some "application/json") a1_text)).



(** An HTML document whose one script element is
    [<script type="application/ld+json">[1]</script>], the site that
    serves it as [text/html], and the script element. *)
Definition ld_array_document : string :=
  "<html><head><script type=" +:+ Str.DQ +:+ "application/ld+json"
  +:+ Str.DQ +:+ ">[1]</script></head><body><p>Hello</p></body></html>".

Definition ld_array_response : response :=
  Model.page 200 (Some "text/html") ld_array_document "https://example.com".

Definition ld_array_page : Libs :=
  Model.libs (Model.serve "https://example.com"
                (Model.page 200 (Some "text/html") ld_array_document)).

Definition ld_array_script : script :=
  {| attrs := {[ "type" := "application/ld+json" ]}; string_ := Some "[1]" |}.

Definition next_day : datetime :=
  {| strftime_ymd := "2024-05-18"; isoformat := "2024-05-18T09:30:00" |}.

(** ** Storage files: [load_data] and [save_data] *)

Definition API_KEYS_FILE : string := "api_keys.json".
Definition USAGE_FILE : string := "usage_stats.json".

(** [c.isspace()], for the characters of the model. *)
Definition isspace (a : ascii) : bool :=
  let n := Model.code a in
  ((9 <=? n) && (n <=? 13)) || ((28 <=? n) && (n <=? 32))
  || (n =? 133) || (n =? 160).

(** [s.lstrip()], [s.rstrip()] and [s.strip()] *)
Fixpoint lstrip (s : string) : string :=
  match s with
  | EmptyString => EmptyString
  | String a r => if isspace a then lstrip r else s
  end.

Fixpoint rstrip (s : string) : string :=
  match s with
  | EmptyString => EmptyString
  | String a r =>
      match rstrip r with
      | EmptyString => if isspace a then EmptyString else String a EmptyString
      | r' => String a r'
      end
  end.

Definition strip (s : string) : string := rstrip (lstrip s).

(** What [json.dump(data, f, indent=2)] writes. *)
Class Dump := { json_dump_indent : json -> string }.

(** The exception [json.loads] raises on a text it does not read:
    [JSONDecodeError] for a text that is no JSON, and others that are no
    [JSONDecodeError] ([RecursionError] for a nesting too deep,
    [ValueError] for a number of too many digits). *)
Class LoadsError := { json_loads_error : string -> exn }.

Section Storage.

Context {L : Libs} {D : Dump} {E : LoadsError}.

(** [load_data(filename)] on the files [fs] (the text of each file that
    exists): the data returned or the exception raised, and the files
    afterwards.  The handler catches [FileNotFoundError] and
    [JSONDecodeError] only: a file that is missing, or whose stripped text
    [json.loads] rejects with a [JSONDecodeError], is written anew with
    [{}], the text [json.dump({}, f)] writes; any other exception of
    [json.loads] leaves the function, and the files are as they were. *)
Definition load_data (filename : string) (fs : gmap string string)
    : (exn + json) * gmap string string :=
  match fs !! filename with
  | Some raw =>
      let content := strip raw in
      if negb (Str.truthy content) then (inr (JObj []), fs)
      else
        match json_loads content with
        | Some v => (inr v, fs)
        | None =>
            let e := json_loads_error content in
            if is_json_decode_error e then (inr (JObj []), <[filename := "{}"]> fs)
            else (inl e, fs)
        end
  | None => (inr (JObj []), <[filename := "{}"]> fs)
  end.

(** [save_data(filename, data)] *)
Definition save_data (filename : string) (data : json) (fs : gmap string string)
    : gmap string string :=
  <[filename := json_dump_indent data]> fs.

End Storage.

(** *** A model of [json.dump(data, f, indent=2)]

    The text the encoder writes, with the default [ensure_ascii]: a string
    between quotes, its quote and backslash escaped, the control characters
    and every character outside the printable ASCII range written as an
    escape; the items of an array and the members of an object on lines of
    their own, two blanks deeper than the bracket that holds them. *)

Definition hex_digit (n : Z) : ascii :=
  nth (Z.to_nat n) (Str.chars "0123456789abcdef") "0"%char.

Definition escape_char (a : ascii) : string :=
  if Ascii.eqb a Str.dq then "\" +:+ Str.DQ
  else if Ascii.eqb a "\" then "\\"
  else if Ascii.eqb a Str.lf then "\n"
  else if Ascii.eqb a Str.cr then "\r"
  else if Ascii.eqb a Str.tab then "\t"
  else if Ascii.eqb a Str.bs then "\b"
  else if Ascii.eqb a Str.ff then "\f"
  else if (32 <=? Model.code a) && (Model.code a <=? 126) then String a EmptyString
  else "\u00" +:+ String (hex_digit (Model.code a `div` 16))
                    (String (hex_digit (Model.code a `mod` 16)) EmptyString).

Fixpoint escape (s : string) : string :=
  match s with
  | EmptyString => EmptyString
  | String a r => escape_char a +:+ escape r
  end.

Definition quoted (s : string) : string := Str.DQ +:+ escape s +:+ Str.DQ.

(** A line end and the indentation of depth [level]. *)
Fixpoint newline_indent (level : nat) : string :=
  match level with
  | O => String Str.lf EmptyString
  | S l => newline_indent l +:+ "  "
  end.

(** The text of a float: its [repr], the three values that are no numbers
    by the names JSON texts give them. *)
Definition float_text (f : pyfloat) : string :=
  if String.eqb (float_repr f) "nan" then "NaN"
  else if String.eqb (float_repr f) "inf" then "Infinity"
  else if String.eqb (float_repr f) "-inf" then "-Infinity"
  else float_repr f.

Fixpoint dump_at (level : nat) (v : json) : string :=
  match v with
  | JNull => "null"
  | JBool true => "true"
  | JBool false => "false"
  | JInt z => pretty z
  | JFloat f => float_text f
  | JStr s => quoted s
  | JArr [] => "[]"
  | JArr (x :: xs) =>
      "[" +:+ newline_indent (S level) +:+ dump_at (S level) x
      +:+ (fix rest (l : list json) : string :=
             match l with
             | [] => EmptyString
             | y :: l' =>
                 "," +:+ newline_indent (S level) +:+ dump_at (S level) y +:+ rest l'
             end) xs
      +:+ newline_indent level +:+ "]"
  | JObj [] => "{}"
  | JObj ((k, x) :: ms) =>
      "{" +:+ newline_indent (S level) +:+ quoted k +:+ ": " +:+ dump_at (S level) x
      +:+ (fix rest (l : list (string * json)) : string :=
             match l with
             | [] => EmptyString
             | (k', y) :: l' =>
                 "," +:+ newline_indent (S level) +:+ quoted k' +:+ ": "
                 +:+ dump_at (S level) y +:+ rest l'
             end) ms
      +:+ newline_indent level +:+ "}"
  end.

Definition model_dump : Dump := {| json_dump_indent := dump_at 0 |}.

(** *** The exceptions of [json.loads]

    The [JSONDecodeError] of the [json] module, which is no exception of
    [requests], and a [RecursionError]; a parser that rejects every text
    it does not read as no JSON, and one that gives up on it with the
    [RecursionError]. *)
Definition loads_decode_error : exn :=
  {| is_request_exception := false; is_json_decode_error := true;
     exn_str := "Expecting value: line 1 column 1 (char 0)" |}.


Definition decode_errors : LoadsError :=
  {| json_loads_error := fun _ => loads_decode_error |}.


(** ** The manager and its two files

    The two files by the dictionaries they hold, that is, by what
    [load_data] gives for what [save_data] last wrote ([json.loads] reads
    back the strings, numbers and truth values [json.dump] writes); a
    missing file counts as the empty dictionary, which is what [load_data]
    returns for it. *)
Record saved := {
  saved_keys : gmap string key_data;             (* api_keys.json *)
  saved_usage : gmap string (gmap string Z)      (* usage_stats.json *)
}.

Definition no_files : saved := {| saved_keys := ∅; saved_usage := ∅ |}.

(** [APIKeyManager.__init__]: the manager as it is built from the files. *)
Definition start (disk : saved) : manager :=
  {| api_keys := saved_keys disk; usage_data := saved_usage disk |}.

(** An operation with its [save_data] calls: [create_api_key] saves the
    keys; [record_usage] saves the usage and the keys, unless the
    [KeyError] leaves it before; the other two save nothing. *)
Definition perform_saving (o : operation) (st : manager) (disk : saved)
    : manager * saved :=
  let st' := perform o st in
  match o with
  | CreateKey _ _ _ _ =>
      (st', {| saved_keys := api_keys st'; saved_usage := saved_usage disk |})
  | RecordUsage k _ _ =>
      match api_keys st !! k with
      | Some _ => (st', {| saved_keys := api_keys st'; saved_usage := usage_data st' |})
      | None => (st', disk)
      end
  | Validate _ _ | GetStats _ _ => (st', disk)
  end.

(** [runs st disk]: the program, started without files, has come to the
    manager [st] and the files [disk] by operations, the generated keys
    being new to the store, and restarts. *)
Inductive runs : manager -> saved -> Prop :=
| runs_first : runs (start no_files) no_files
| runs_operation o st disk :
    runs st disk -> unique_key o st ->
    runs (perform_saving o st disk).1 (perform_saving o st disk).2
| runs_restart st disk :
    runs st disk -> runs (start disk) disk.

(** The files are in step with the manager: the keys file holds the key
    records; a count of the usage file is a count, is not above the one in
    memory, and is the one in memory for every key that has a record. *)
Definition in_step (st : manager) (disk : saved) : Prop :=
  saved_keys disk = api_keys st ∧
  ∀ d k,
    0 ≤ usage_get d k (saved_usage disk) ≤ usage_get d k (usage_data st) ∧
    (is_Some (api_keys st !! k) →
     usage_get d k (saved_usage disk) = usage_get d k (usage_data st)).

(** An operation with its saving, on a manager and its files. *)
Definition saving (o : operation) (at_ : manager * saved) : manager * saved :=
  perform_saving o at_.1 at_.2.

(** A run: a key is created, checked, and used twice; then a call for a
    key that does not exist fails. *)
Definition example_run : manager * saved :=
  saving (RecordUsage "api_unknown" noon noon)
    (saving (RecordUsage one_key.1.1 noon noon)
       (saving (RecordUsage one_key.1.1 noon noon)
          (saving (Validate one_key.1.1 next_day)
             (saving (CreateKey "ann@example.com" "free" (fun i => i) noon)
                (start no_files, no_files))))).

(** ** The other routes *)

(** What the two statistics routes send. *)
Inductive stats_payload :=
| StatsFound (stats : key_stats)           (* {'success': True, 'stats': ...} *)
| StatsFailure (error_message : string)    (* {'success': False, 'error': ...} *)
| StatsServerError (e : exn).              (* an exception no handler caught *)

Record stats_response := { stats_status : Z; stats_sent : stats_payload }.

Definition unhashable_error : exn :=
  {| is_request_exception := false; is_json_decode_error := false;
     exn_str := "unhashable type" |}.

(** The route [/key-stats]: the key is read from the JSON body, and the
    status is 200 whether the key is known or not. *)
Definition key_stats_route (req : request) (now : datetime) (st : manager)
    : stats_response :=
  match body req with
  | Some (JObj members) =>
      match Py.dict_get "api_key" members with
      | Some (JStr k) =>
          match get_key_stats k now st with
          | Some stats => {| stats_status := 200; stats_sent := StatsFound stats |}
          | None => {| stats_status := 200; stats_sent := StatsFailure "Invalid API key" |}
          end
      | Some (JArr _) | Some (JObj _) =>
          {| stats_status := 500; stats_sent := StatsServerError unhashable_error |}
      | _ => {| stats_status := 200; stats_sent := StatsFailure "Invalid API key" |}
      end
  | _ => {| stats_status := 500; stats_sent := StatsServerError attribute_error_get |}
  end.

(** The route [/api/stats]: the key is read from the headers. *)
Definition api_get_stats (req : request) (now : datetime) (st : manager)
    : stats_response :=
  let api_key := request_key req in
  if negb (Str.truthy api_key) then
    {| stats_status := 401; stats_sent := StatsFailure "API key required" |}
  else
    match get_key_stats api_key now st with
    | Some stats => {| stats_status := 200; stats_sent := StatsFound stats |}
    | None => {| stats_status := 401; stats_sent := StatsFailure "Invalid API key" |}
    end.

(** The dictionary of the route [/health]. *)
Record health := {
  health_status : string;
  health_timestamp : string;
  api_keys_count : nat
}.

Definition health_check (now : datetime) (st : manager) : health :=
  {| health_status := "healthy";
     health_timestamp := isoformat now;
     api_keys_count := size (api_keys st) |}.

Section PublicRoute.

Context {L : Libs}.

(** The route [/api/public-extract]: the extraction without a key. *)
Definition public_extract_json (req : request) (now : datetime) : http_response :=
  match body req with
  | None => {| status := 400; sent := Failure "JSON data required" |}
  | Some data =>
      if negb (Py.truthy data) then
        {| status := 400; sent := Failure "JSON data required" |}
      else
        match data with
        | JObj members =>
            match Py.dict_get "url" members with
            | None => {| status := 400; sent := Failure "URL parameter required" |}
            | Some u =>
                if negb (Py.truthy u) then
                  {| status := 400; sent := Failure "URL parameter required" |}
                else
                  {| status := 200; sent := Result (extract_json_from_url u now).1 |}
            end
        | _ => {| status := 500; sent := ServerError attribute_error_get |}
        end
  end.

End PublicRoute.

(** ** What the statements of the further properties speak of *)

(** No key has been used on a day beyond its daily limit. *)
Definition within_quota (st : manager) : Prop :=
  ∀ k kd d, api_keys st !! k = Some kd →
            usage_get d k (usage_data st) ≤ requests_per_day kd.

(** The rows of the table [limits], as pairs. *)
Definition plan_rows : list (Z * Z) := [(100, 10); (1000, 100); (10000, 1000)].

(** A record as [create_api_key] makes them and [record_usage] keeps them:
    stored under its own key, with the two limits of one plan, and a
    lifetime counter that is not negative. *)
Definition sound_record (k : string) (kd : key_data) : Prop :=
  api_key kd = k ∧
  (requests_per_day kd, rate_limit kd) ∈ plan_rows ∧
  0 ≤ total_requests kd.



(** A character occurs in a text. *)
Definition occurs (c : ascii) (s : string) : Prop := In c (Str.chars s).

(** [c] is a substring of [s]. *)
Definition substring_of (c s : string) : Prop :=
  ∃ before after_, s = before +:+ c +:+ after_.

(** * Properties *)

(** ** The pattern matcher *)

Lemma patterns_compile :
  Forall (fun pat => is_Some (Re.compile pat)) patterns.
Proof. repeat constructor; vm_compute; eauto. Qed.

Lemma find_json_objects_unfold (text : string) :
  find_json_objects text =
    default [] (Re.findall pattern_nested text)
    ++ default [] (Re.findall pattern_flat text)
    ++ default [] (Re.findall pattern_array text).
Proof.
  unfold find_json_objects, patterns. cbn [fold_left].
  by rewrite app_nil_l, <- app_assoc.
Qed.

Section ExtractorFacts.

Context {L : Libs}.

(** The loop over the matches keeps what was found before and appends one
    object per candidate that [json.loads] accepts, in order. *)
Lemma load_matches_omap (mk : json -> extracted) (ms : list string) (acc : list extracted) :
  load_matches mk ms acc = acc ++ omap (fun m => mk <$> json_loads m) ms.
Proof.
  unfold load_matches. revert acc.
  induction ms as [|m ms IH]; intros acc; simpl.
  - by rewrite app_nil_r.
  - destruct (json_loads m) as [j|]; simpl.
    + rewrite IH. by rewrite <- app_assoc.
    + apply IH.
Qed.

Lemma extract_json_from_text_omap (text : string) :
  extract_json_from_text text =
    omap (fun m => text_pattern_object <$> json_loads m) (find_json_objects text).
Proof. unfold extract_json_from_text. by rewrite load_matches_omap. Qed.

End ExtractorFacts.

(** C6. [find_json_objects] runs each of the three patterns over the whole
    text and returns their matches concatenated, pattern by pattern and,
    within a pattern, in the order of the matches, keeping duplicates; a
    candidate that [json.loads] rejects adds no object and raises nothing.
    On [{a:{b:1}}] the matcher gives that text as its one candidate,
    [json.loads] rejects it (the scanner of the model does so whatever its
    fuel), no object comes of it, and the extraction of a page with that
    body ends in the ordinary "No JSON data found" result. *)
Theorem find_json_objects_candidates (L : Libs) :
  (∀ text, ∃ nested flat array,
      Re.findall pattern_nested text = Some nested ∧
      Re.findall pattern_flat text = Some flat ∧
      Re.findall pattern_array text = Some array ∧
      find_json_objects text = nested ++ flat ++ array) ∧
  (∀ mk candidates found,
      load_matches mk candidates found =
        found ++ omap (fun c => mk <$> json_loads c) candidates) ∧
  (∀ text,
      extract_json_from_text text =
        omap (fun c => text_pattern_object <$> json_loads c) (find_json_objects text)) ∧
  (∃ obj, find_json_objects twice_text = [obj; obj]) ∧
  find_json_objects "{a:{b:1}}" = ["{a:{b:1}}"] ∧
  (∀ fuel, Model.scan_once fuel "{a:{b:1}}" = None) ∧
  Model.loads "{a:{b:1}}" = None ∧
  @extract_json_from_text unquoted_page "{a:{b:1}}" = [] ∧
  (let r := (@extract_json_from_url unquoted_page (JStr "example.com") noon).1 in
   success r = false ∧ json_objects r = [] ∧
   error r = Some "No JSON data found in the provided URL").
Proof.
  split; [|split; [apply load_matches_omap|]].
  2: split; [|split; [|split; [|split; [|split; [|split]]]]].
  - intros text.
    pose proof patterns_compile as Hc. unfold patterns in Hc.
    apply Forall_cons in Hc as [[p1 H1] Hc].
    apply Forall_cons in Hc as [[p2 H2] Hc].
    apply Forall_cons in Hc as [[p3 H3] _].
    rewrite find_json_objects_unfold. unfold Re.findall.
    rewrite H1, H2, H3. simpl. eauto 10.
  - apply extract_json_from_text_omap.
  - eexists. vm_compute. reflexivity.
  - vm_compute. reflexivity.
  - intros [|[|fuel]]; reflexivity.
  - vm_compute. reflexivity.
  - vm_compute. reflexivity.
  - vm_compute. auto.
Qed.

(** ** The API key manager *)

Lemma limits_unknown (plan : string) :
  plan ≠ "free" → plan ≠ "premium" → plan ≠ "enterprise" → limits !! plan = None.
Proof.
  intros Hf Hp He. unfold limits.
  rewrite !lookup_insert_ne by done. apply lookup_empty.
Qed.

Lemma limits_None (plan : string) :
  limits !! plan = None → plan ≠ "free" ∧ plan ≠ "premium" ∧ plan ≠ "enterprise".
Proof.
  intros H. repeat split; intros ->; vm_compute in H; discriminate.
Qed.

(** The limits [create_api_key] takes for a plan. *)
Lemma plan_limits_cases (plan : string) :
  default (limits !!! "free") (limits !! plan) =
    if String.eqb plan "free" then {| lim_requests_per_day := 100; lim_rate_limit := 10 |}
    else if String.eqb plan "premium" then {| lim_requests_per_day := 1000; lim_rate_limit := 100 |}
    else if String.eqb plan "enterprise" then {| lim_requests_per_day := 10000; lim_rate_limit := 1000 |}
    else {| lim_requests_per_day := 100; lim_rate_limit := 10 |}.
Proof.
  destruct (String.eqb_spec plan "free") as [->|Hf]; [by vm_compute|].
  destruct (String.eqb_spec plan "premium") as [->|Hp]; [by vm_compute|].
  destruct (String.eqb_spec plan "enterprise") as [->|He]; [by vm_compute|].
  rewrite limits_unknown by done. by vm_compute.
Qed.

(** C9. [create_api_key] takes the limits of the plan from the table: 100 a
    day and rate 10 for free, 1000 and 100 for premium, 10000 and 1000 for
    enterprise; for any other plan name it takes those of free.  The record
    it returns is the one it stores under the new key. *)
Theorem create_api_key_limits (user_email plan : string) (draw : nat -> nat)
    (now : datetime) (st : manager) :
  let '(k, kd, st') := create_api_key user_email plan draw now st in
  api_keys st' !! k = Some kd ∧
  (requests_per_day kd, rate_limit kd) =
    if String.eqb plan "free" then (100, 10)
    else if String.eqb plan "premium" then (1000, 100)
    else if String.eqb plan "enterprise" then (10000, 1000)
    else (100, 10).
Proof.
  unfold create_api_key. cbn [api_keys requests_per_day rate_limit].
  split; [apply lookup_insert_eq|].
  rewrite plan_limits_cases.
  by repeat case_match.
Qed.

(** C10. For a plan name that is not in the table, [create_api_key] stores
    the name as it was given, with the limits of free, and [get_key_stats]
    on the new key reports that name, not "free". *)
Theorem unknown_plan_kept (user_email plan : string) (draw : nat -> nat)
    (now now' : datetime) (st : manager) :
  limits !! plan = None →
  let '(k, kd, st') := create_api_key user_email plan draw now st in
  plan_type kd = plan ∧ requests_per_day kd = 100 ∧ rate_limit kd = 10 ∧
  api_keys st' !! k = Some kd ∧
  ∃ stats, get_key_stats k now' st' = Some stats ∧
           stats_plan_type stats = plan ∧ stats_plan_type stats ≠ "free" ∧
           stats_daily_limit stats = 100.
Proof.
  intros Hplan. unfold create_api_key, get_key_stats.
  cbn [api_keys usage_data plan_type requests_per_day rate_limit].
  rewrite lookup_insert_eq, Hplan.
  destruct (limits_None plan Hplan) as (Hf & _ & _).
  assert (Hfree : default (limits !!! "free") None
                  = {| lim_requests_per_day := 100; lim_rate_limit := 10 |})
    by (vm_compute; reflexivity).
  rewrite Hfree. cbn [lim_requests_per_day lim_rate_limit].
  split; [reflexivity|]. split; [reflexivity|]. split; [reflexivity|].
  split; [reflexivity|].
  eexists. split; [reflexivity|].
  cbn [stats_plan_type stats_daily_limit plan_type requests_per_day].
  split; [reflexivity|]. split; [exact Hf|reflexivity].
Qed.

(** The plan name [gold], on the empty store. *)
Lemma unknown_plan_kept_witness :
  limits !! "gold" = None ∧
  let '(k, kd, st') :=
    create_api_key "ann@example.com" "gold" (fun i => i) noon empty_manager in
  plan_type kd = "gold" ∧ requests_per_day kd = 100 ∧ rate_limit kd = 10 ∧
  api_keys st' !! k = Some kd ∧
  ∃ stats, get_key_stats k noon st' = Some stats ∧
           stats_plan_type stats = "gold" ∧ stats_plan_type stats ≠ "free" ∧
           stats_daily_limit stats = 100.
Proof.
  split; [reflexivity|].
  apply (unknown_plan_kept "ann@example.com" "gold" (fun i => i) noon noon empty_manager).
  reflexivity.
Defined.

(** *** The ledger *)

Lemma open_ledger_today (d k : string) (u : gmap string (gmap string Z)) :
  open_ledger d k u !! d =
    Some (<[k := usage_get d k u]> (default ∅ (u !! d))).
Proof.
  unfold open_ledger, usage_get.
  destruct (u !! d) as [m|] eqn:Hd; simpl.
  - rewrite (lookup_total_correct u d m Hd).
    destruct (m !! k) as [v|] eqn:Hk; simpl.
    + rewrite Hd. f_equal. symmetry. by apply insert_id.
    + by rewrite lookup_insert_eq.
  - rewrite lookup_total_insert_eq, lookup_empty. simpl.
    by rewrite lookup_insert_eq.
Qed.

Lemma open_ledger_other (d d' k : string) (u : gmap string (gmap string Z)) :
  d ≠ d' → open_ledger d k u !! d' = u !! d'.
Proof.
  intros Hne. unfold open_ledger.
  destruct (u !! d) as [m|] eqn:Hd.
  - destruct ((u !!! d) !! k); [done|]. by rewrite lookup_insert_ne.
  - destruct ((<[d:=∅]> u !!! d) !! k); rewrite ?lookup_insert_ne; done.
Qed.

Lemma usage_on_open_ledger (d k : string) (u : gmap string (gmap string Z)) :
  usage_on d k (open_ledger d k u) = usage_get d k u.
Proof.
  unfold usage_on.
  rewrite (lookup_total_correct _ _ _ (open_ledger_today d k u)).
  by rewrite lookup_total_insert_eq.
Qed.

Lemma usage_get_open_ledger (d k d' k' : string) (u : gmap string (gmap string Z)) :
  usage_get d' k' (open_ledger d k u) = usage_get d' k' u.
Proof.
  unfold usage_get at 1.
  destruct (decide (d = d')) as [<-|Hd].
  - rewrite open_ledger_today. simpl.
    destruct (decide (k = k')) as [<-|Hk].
    + by rewrite lookup_insert_eq.
    + by rewrite lookup_insert_ne.
  - by rewrite open_ledger_other.
Qed.

Lemma usage_get_ledger_after (d k d' k' : string) (u : gmap string (gmap string Z)) :
  usage_get d' k' (ledger_after d k u) =
    usage_get d' k' u + (if decide (d = d' ∧ k = k') then 1 else 0).
Proof.
  unfold ledger_after. rewrite usage_on_open_ledger.
  unfold usage_get at 1.
  destruct (decide (d = d')) as [<-|Hd].
  - rewrite lookup_insert_eq. simpl.
    rewrite (lookup_total_correct _ _ _ (open_ledger_today d k u)).
    destruct (decide (k = k')) as [<-|Hk].
    + rewrite lookup_insert_eq. simpl. rewrite decide_True by done. done.
    + rewrite !lookup_insert_ne by done.
      rewrite decide_False by (by intros [? ?]). unfold usage_get. lia.
  - rewrite lookup_insert_ne by done. rewrite open_ledger_other by done.
    rewrite decide_False by (by intros [? ?]). unfold usage_get. lia.
Qed.

Lemma record_usage_ledger (k : string) (now now' : datetime) (st : manager) :
  usage_data (record_usage k now now' st).1 =
    ledger_after (strftime_ymd now) k (usage_data st).
Proof. unfold record_usage. by destruct (api_keys st !! k). Qed.

Lemma record_usage_keys (k k' : string) (now now' : datetime) (st : manager) :
  api_keys (record_usage k now now' st).1 !! k' =
    if decide (k = k') then used now' <$> api_keys st !! k'
    else api_keys st !! k'.
Proof.
  unfold record_usage.
  destruct (api_keys st !! k) as [kd|] eqn:Hk; simpl.
  - destruct (decide (k = k')) as [<-|Hne].
    + by rewrite lookup_insert_eq, Hk.
    + by rewrite lookup_insert_ne.
  - destruct (decide (k = k')) as [<-|Hne]; [by rewrite Hk|done].
Qed.

(** [validate_api_key], by the count the ledger held on entry. *)
Lemma validate_api_key_outcome (k : string) (now : datetime) (st : manager) :
  (validate_api_key k now st).1 =
    match api_keys st !! k with
    | None => Invalid "Invalid API key"
    | Some kd =>
        if negb (is_active kd) then Invalid "API key is inactive"
        else if requests_per_day kd <=? usage_get (strftime_ymd now) k (usage_data st)
             then Invalid "Daily request limit exceeded"
             else Valid kd
    end.
Proof.
  unfold validate_api_key.
  destruct (api_keys st !! k) as [kd|]; [|done].
  destruct (is_active kd); simpl; [|done].
  rewrite usage_on_open_ledger. by case_match.
Qed.

Lemma validate_api_key_keys (k : string) (now : datetime) (st : manager) :
  api_keys (validate_api_key k now st).2 = api_keys st.
Proof.
  unfold validate_api_key.
  destruct (api_keys st !! k) as [kd|]; [|done].
  destruct (is_active kd); simpl; [|done]. by case_match.
Qed.

(** After a run of [record_usage] calls on one day. *)
Lemma record_all_day (k d : string) (times : list (datetime * datetime)) (st : manager) :
  Forall (fun t => strftime_ymd t.1 = d) times →
  (∀ d' k', usage_get d' k' (usage_data (record_all k times st)) =
      usage_get d' k' (usage_data st)
      + (if decide (d = d' ∧ k = k') then Z.of_nat (length times) else 0)) ∧
  (∀ kd, api_keys st !! k = Some kd →
      ∃ kd', api_keys (record_all k times st) !! k = Some kd' ∧
             requests_per_day kd' = requests_per_day kd ∧
             is_active kd' = is_active kd ∧
             total_requests kd' = total_requests kd + Z.of_nat (length times)).
Proof.
  unfold record_all. revert st.
  induction times as [|t times IH]; intros st Hday; simpl.
  - split.
    + intros d' k'. case_decide; lia.
    + intros kd Hkd. exists kd. repeat split; [done|lia].
  - apply Forall_cons in Hday as [Ht Hday].
    destruct (IH (record_usage k t.1 t.2 st).1 Hday) as [IHu IHk].
    split.
    + intros d' k'. rewrite IHu, record_usage_ledger, usage_get_ledger_after, Ht.
      case_decide; lia.
    + intros kd Hkd.
      destruct (IHk (used t.2 kd)) as (kd' & Hkd' & Hr & Ha & Ht').
      { rewrite record_usage_keys, decide_True by done. by rewrite Hkd. }
      exists kd'. repeat split; try done. rewrite Ht'. simpl. lia.
Qed.

Lemma validate_api_key_ledger (k : string) (now : datetime) (st : manager) (d k' : string) :
  usage_get d k' (usage_data (validate_api_key k now st).2) =
    usage_get d k' (usage_data st).
Proof.
  unfold validate_api_key.
  destruct (api_keys st !! k) as [kd|]; [|done].
  destruct (is_active kd); simpl; [|done].
  case_match; simpl; apply usage_get_open_ledger.
Qed.

Lemma plan_limits_positive (plan : string) :
  0 < lim_requests_per_day (default (limits !!! "free") (limits !! plan)).
Proof. rewrite plan_limits_cases. repeat case_match; simpl; lia. Qed.

Lemma perform_well_kept (o : operation) (st : manager) :
  well_kept st → well_kept (perform o st).
Proof.
  intros [Hkeys Hledger]. destruct o as [e p draw now|k now|k now now'|k now]; simpl.
  - split; [|done]. intros k kd. unfold create_api_key. simpl.
    destruct (decide (generate_api_key draw = k)) as [<-|Hne].
    + rewrite lookup_insert_eq. intros [= <-]. simpl.
      split; [done|apply plan_limits_positive].
    + rewrite lookup_insert_ne by done. apply Hkeys.
  - split.
    + intros k' kd. rewrite validate_api_key_keys. apply Hkeys.
    + intros d k'. rewrite validate_api_key_ledger. apply Hledger.
  - split.
    + intros k' kd. rewrite record_usage_keys.
      destruct (decide (k = k')) as [<-|Hne]; [|apply Hkeys].
      destruct (api_keys st !! k) as [kd0|] eqn:Hk; [|done].
      intros [= <-]. simpl. by apply (Hkeys k).
    + intros d k'. rewrite record_usage_ledger, usage_get_ledger_after.
      specialize (Hledger d k'). case_decide; lia.
  - done.
Qed.

(** C7. [validate_api_key] tests in this order and answers with the first
    test that fails: a key without a record, "Invalid API key"; a record
    that is not active, "API key is inactive"; a count for today that has
    reached the daily limit, "Daily request limit exceeded"; otherwise the
    key is valid.  So for an active key, after as many [record_usage] calls
    on one day as its daily limit, [validate_api_key] on that day answers
    "Daily request limit exceeded", and on another day on which the ledger
    holds nothing for the key it answers that the key is valid.  What
    these two consequences ask of the store (a count that is not negative,
    a daily limit above zero, an active key) holds of every store that the
    operations lead to from the empty one. *)
Theorem validate_api_key_checks :
  (∀ k now st,
      (validate_api_key k now st).1 =
        match api_keys st !! k with
        | None => Invalid "Invalid API key"
        | Some kd =>
            if negb (is_active kd) then Invalid "API key is inactive"
            else if requests_per_day kd <=? usage_get (strftime_ymd now) k (usage_data st)
                 then Invalid "Daily request limit exceeded"
                 else Valid kd
        end) ∧
  (∀ k d st kd times,
      api_keys st !! k = Some kd →
      is_active kd = true →
      0 ≤ usage_get d k (usage_data st) →
      Forall (fun t => strftime_ymd t.1 = d) times →
      length times = Z.to_nat (requests_per_day kd) →
      (∀ now, strftime_ymd now = d →
         (validate_api_key k now (record_all k times st)).1 =
           Invalid "Daily request limit exceeded") ∧
      (∀ now, strftime_ymd now ≠ d →
         usage_get (strftime_ymd now) k (usage_data st) = 0 →
         0 < requests_per_day kd →
         ∃ kd', (validate_api_key k now (record_all k times st)).1 = Valid kd' ∧
                api_keys (record_all k times st) !! k = Some kd')) ∧
  (∀ st, reaches any_operation empty_manager st → well_kept st).
Proof.
  split; [apply validate_api_key_outcome|]. split.
  - intros k d st kd times Hkd Hact Hcount Hday Hlen.
    destruct (record_all_day k d times st Hday) as [Hu Hk].
    destruct (Hk kd Hkd) as (kd' & Hkd' & Hr & Ha & _).
    split.
    + intros now <-. rewrite validate_api_key_outcome, Hkd', Ha, Hact. simpl.
      rewrite Hu, decide_True by done. rewrite Hr.
      case_match; [done|]. apply Z.leb_gt in H. lia.
    + intros now Hne Hzero Hpos. exists kd'. split; [|done].
      rewrite validate_api_key_outcome, Hkd', Ha, Hact. simpl.
      rewrite Hu, decide_False by (by intros [? ?]). rewrite Hr, Hzero.
      case_match; [|done]. apply Z.leb_le in H. lia.
  - intros st Hreach. induction Hreach as [|o st' Hreach IH _].
    + split.
      * intros k kd. unfold empty_manager. simpl. by rewrite lookup_empty.
      * intros d k. unfold usage_get, empty_manager. simpl.
        by rewrite lookup_empty.
    + by apply perform_well_kept.
Qed.

(** *** The lifetime counter and the ledger *)

Lemma ledger_total_insert (k d : string) (day : gmap string Z)
    (u : gmap string (gmap string Z)) :
  ledger_total k (<[d := day]> u) =
    ledger_total k u - usage_get d k u + default 0 (day !! k).
Proof.
  unfold ledger_total, usage_get.
  destruct (u !! d) as [old|] eqn:Hd; simpl.
  - rewrite <- (insert_delete_eq u d day).
    rewrite map_fold_insert_L; [|intros; lia|apply lookup_delete_eq].
    rewrite (map_fold_delete_L _ _ d old u); [|intros; lia|done]. lia.
  - rewrite map_fold_insert_L; [|intros; lia|done].
    rewrite lookup_empty. simpl. lia.
Qed.

Lemma ledger_total_open_ledger (k d k' : string) (u : gmap string (gmap string Z)) :
  ledger_total k' (open_ledger d k u) = ledger_total k' u.
Proof.
  unfold open_ledger.
  assert (Hempty : ledger_total k' (<[d:=∅]> u) = ledger_total k' u - usage_get d k' u).
  { rewrite ledger_total_insert, lookup_empty. simpl. lia. }
  destruct (u !! d) as [m|] eqn:Hd.
  - rewrite (lookup_total_correct u d m Hd).
    destruct (m !! k) as [v|] eqn:Hk; [done|].
    rewrite ledger_total_insert. unfold usage_get. rewrite Hd. simpl.
    destruct (decide (k = k')) as [<-|Hne].
    + rewrite lookup_insert_eq, Hk. simpl. lia.
    + rewrite lookup_insert_ne by done. lia.
  - assert (Hz : usage_get d k' u = 0).
    { unfold usage_get. rewrite Hd. simpl. by rewrite lookup_empty. }
    simpl. rewrite lookup_total_insert_eq, lookup_empty.
    rewrite ledger_total_insert, Hempty.
    unfold usage_get at 2. rewrite lookup_insert_eq. simpl. rewrite lookup_empty. simpl.
    destruct (decide (k = k')) as [<-|Hne].
    + rewrite lookup_insert_eq. simpl. lia.
    + rewrite lookup_insert_ne, lookup_empty by done. simpl. lia.
Qed.

Lemma ledger_total_ledger_after (k d k' : string) (u : gmap string (gmap string Z)) :
  ledger_total k' (ledger_after d k u) =
    ledger_total k' u + (if decide (k = k') then 1 else 0).
Proof.
  unfold ledger_after.
  rewrite ledger_total_insert, ledger_total_open_ledger, usage_get_open_ledger.
  rewrite usage_on_open_ledger.
  rewrite (lookup_total_correct _ _ _ (open_ledger_today d k u)).
  destruct (decide (k = k')) as [<-|Hne].
  - rewrite lookup_insert_eq. simpl. lia.
  - rewrite !lookup_insert_ne by done. unfold usage_get. lia.
Qed.

(** A key that no ledger entry carries has an empty ledger. *)
Lemma ledger_total_new (k : string) (u : gmap string (gmap string Z)) :
  (∀ day entries, u !! day = Some entries → entries !! k = None) →
  ledger_total k u = 0.
Proof.
  unfold ledger_total.
  apply (map_fold_weak_ind
           (fun r (m : gmap string (gmap string Z)) =>
              (∀ day entries, m !! day = Some entries → entries !! k = None) → r = 0)).
  - done.
  - intros d e m r Hd IH Hall.
    rewrite IH.
    + rewrite (Hall d e) by apply lookup_insert_eq. done.
    + intros d' e' He'. apply (Hall d').
      rewrite lookup_insert_ne; [done|]. intros ->. by rewrite Hd in He'.
Qed.

Lemma create_api_key_agree e p draw now st :
  counters_agree st → new_key (generate_api_key draw) st →
  counters_agree (create_api_key e p draw now st).2.
Proof.
  intros Hinv [Hnew Hledger] k kd. unfold create_api_key. simpl.
  destruct (decide (generate_api_key draw = k)) as [<-|Hne].
  - rewrite lookup_insert_eq. intros [= <-]. simpl.
    by rewrite ledger_total_new.
  - rewrite lookup_insert_ne by done. apply Hinv.
Qed.

Lemma validate_api_key_agree k now st :
  counters_agree st → counters_agree (validate_api_key k now st).2.
Proof.
  intros Hinv k' kd. rewrite validate_api_key_keys. intros Hkd.
  rewrite (Hinv k' kd Hkd). unfold validate_api_key.
  destruct (api_keys st !! k) as [kd0|]; [|done].
  destruct (is_active kd0); simpl; [|done].
  case_match; simpl; by rewrite ledger_total_open_ledger.
Qed.

Lemma record_usage_agree k now now' st :
  counters_agree st → counters_agree (record_usage k now now' st).1.
Proof.
  intros Hinv k' kd.
  rewrite record_usage_keys, record_usage_ledger, ledger_total_ledger_after.
  destruct (decide (k = k')) as [<-|Hne].
  - destruct (api_keys st !! k) as [kd0|] eqn:Hk; [|done].
    intros [= <-]. simpl. by rewrite (Hinv k kd0 Hk).
  - intros Hkd. rewrite (Hinv k' kd Hkd). lia.
Qed.

Lemma perform_agree (o : operation) (st : manager) :
  counters_agree st → unique_key o st → counters_agree (perform o st).
Proof.
  destruct o; simpl; intros Hinv Hnew.
  - by apply create_api_key_agree.
  - by apply validate_api_key_agree.
  - by apply record_usage_agree.
  - done.
Qed.

(** C8, as the code has it.  In every store that a sequence of
    [create_api_key], [validate_api_key], [record_usage] and
    [get_key_stats] calls leads to, in which each [create_api_key]
    generates a key that is new to the store (no record and no ledger
    entry carries it), the [total_requests] of every key record is the
    sum of the key's ledger entries over all days; and each of the
    operations keeps it so, [create_api_key] when the key it generates is
    new. *)
Theorem total_requests_is_ledger_total :
  counters_agree empty_manager ∧
  (∀ o st, counters_agree st → unique_key o st → counters_agree (perform o st)) ∧
  (∀ st0 st, counters_agree st0 → reaches unique_key st0 st → counters_agree st).
Proof.
  split; [|split].
  - intros k kd. unfold empty_manager. simpl. by rewrite lookup_empty.
  - apply perform_agree.
  - intros st0 st H0 Hreach. induction Hreach as [|o st' Hreach IH Hnew].
    + done.
    + by apply perform_agree.
Qed.

(** ** The extraction pipeline *)

Section ExtractorProperties.

Context {L : Libs}.

#[local] Ltac found name :=
  split; [done|split; [done|left; repeat split; try done;
    exists name; split; [done|unfold method_names; set_solver]]].

Lemma method_5_left (resp : response) (r : results) :
  blank r → left_as r (method_5 resp r).
Proof.
  intros (Hs & He & Ho & Hm & Hd). unfold method_5.
  destruct (json_ resp) as [e|j]; simpl.
  - split; [done|split; [done|]]. right. by repeat split.
  - found "forced_json".
Qed.

Lemma method_4_left (resp : response) (r : results) :
  blank r → left_as r (method_4 resp r).
Proof.
  intros Hb. unfold method_4.
  destruct (extract_json_from_text (text resp)) as [|o os] eqn:Ht.
  - by apply method_5_left.
  - destruct Hb as (Hs & He & Ho & Hm & Hd). found "text_patterns".
Qed.

Lemma method_3_left (resp : response) (r : results) :
  blank r → left_as r (method_3 resp r).
Proof.
  intros Hb. unfold method_3.
  destruct (extract_json_ld (text resp)) as [e|[|o os]] eqn:Ht.
  - by repeat split; try apply Hb.
  - by apply method_4_left.
  - destruct Hb as (Hs & He & Ho & Hm & Hd). found "json_ld".
Qed.

Lemma method_2_left (resp : response) (r : results) :
  blank r → left_as r (method_2 resp r).
Proof.
  intros Hb. unfold method_2.
  destruct (extract_json_from_script_tags (text resp)) as [e|[|o os]] eqn:Ht.
  - by repeat split; try apply Hb.
  - by apply method_3_left.
  - destruct Hb as (Hs & He & Ho & Hm & Hd). found "script_tags".
Qed.

Lemma method_1_left (resp : response) (r : results) :
  blank r → left_as r (method_1 resp r).
Proof.
  intros Hb. unfold method_1.
  destruct (Str.contains _ _); [|by apply method_2_left].
  destruct (json_ resp) as [e|j].
  - destruct (is_json_decode_error e); [by apply method_2_left|].
    by repeat split; try apply Hb.
  - destruct Hb as (Hs & He & Ho & Hm & Hd). found "direct_json".
Qed.

Lemma try_block_left (u : json) (r : results) :
  blank r → left_as r (try_block u r).1.
Proof.
  intros Hb. unfold try_block.
  destruct u as [| | | |u| |]; try by repeat split; try apply Hb.
  destruct (urlparse_scheme u) as [e|scheme]; [by repeat split; try apply Hb|].
  destruct (session_get _) as [e|resp]; [by repeat split; try apply Hb|].
  destruct (raise_for_status resp) as [e|]; [by repeat split; try apply Hb|].
  cbn [fst].
  set (r' := set_size_kb _ _).
  assert (Hb' : blank r') by (by destruct Hb as (? & ? & ? & ? & ?)).
  destruct (method_1_left resp r' Hb') as (Hu & Ht & Hout).
  by repeat split.
Qed.

(** The handlers change the [error] entry only. *)
Lemma extract_json_from_url_url (u : json) (now : datetime) :
  url (extract_json_from_url u now).1 = u.
Proof.
  unfold extract_json_from_url.
  destruct (try_block_left u (initial_results u now)) as (Hu & _); [done|].
  destruct (try_block u _) as [[r oe] fetched]. simpl in *.
  destruct oe as [e|]; [destruct (is_request_exception e)|]; done.
Qed.

(** *** The order of the strategies *)

Lemma method_5_first (resp : response) (r : results) :
  method_5 resp r = first_yielding [("forced_json", forced_json)] resp r.
Proof.
  unfold method_5, first_yielding, forced_json. by destruct (json_ resp).
Qed.

Lemma method_4_first (resp : response) (r : results) :
  method_4 resp r =
    first_yielding [("text_patterns", text_patterns); ("forced_json", forced_json)]
      resp r.
Proof.
  unfold method_4. rewrite method_5_first.
  cbn [first_yielding]. unfold text_patterns at 1.
  by destruct (extract_json_from_text (text resp)).
Qed.

Lemma method_3_first (resp : response) (r : results) :
  method_3 resp r =
    first_yielding [("json_ld", json_ld); ("text_patterns", text_patterns);
                    ("forced_json", forced_json)] resp r.
Proof.
  unfold method_3. rewrite method_4_first.
  cbn [first_yielding]. unfold json_ld at 1.
  by destruct (extract_json_ld (text resp)) as [e|[|o os]].
Qed.

Lemma method_2_first (resp : response) (r : results) :
  method_2 resp r = first_yielding (tail strategies) resp r.
Proof.
  unfold method_2. rewrite method_3_first.
  unfold strategies. cbn [tail first_yielding]. unfold script_tags at 1.
  by destruct (extract_json_from_script_tags (text resp)) as [e|[|o os]].
Qed.

Lemma method_1_first (resp : response) (r : results) :
  content_type r = Some (default "" (header_content_type resp)) →
  method_1 resp r = first_yielding strategies resp r.
Proof.
  intros Hct. unfold method_1. rewrite method_2_first, Hct.
  unfold strategies. cbn [tail first_yielding default]. unfold direct_json at 1.
  destruct (Str.contains _ _); [|done].
  destruct (json_ resp) as [e|j]; [|done].
  by destruct (is_json_decode_error e).
Qed.

Lemma try_block_fetched (u fetched : string) (resp : response) (r : results) :
  fetches u fetched resp →
  try_block (JStr u) r =
    (method_1 resp
       (set_size_kb (round_kb (content_length resp))
          (set_content_type (default "" (header_content_type resp)) r)),
     [fetched]).
Proof.
  intros (scheme & Hscheme & -> & Hget & Hstatus).
  unfold try_block. by rewrite Hscheme, Hget, Hstatus.
Qed.

Lemma first_yielding_split (before after_ : list (string * (response -> attempt)))
    (name : string) (strategy : response -> attempt) (resp : response) (r : results) :
  yield_nothing before resp →
  first_yielding (before ++ (name, strategy) :: after_) resp r =
    match strategy resp with
    | Yields d o os => (set_found d (o :: os) name r, None)
    | Nothing => first_yielding after_ resp r
    | Faults e => (r, Some e)
    end.
Proof.
  induction before as [|[n s] before IH]; intros Hn; [done|].
  apply Forall_cons in Hn as [Hs Hn]. cbn [app first_yielding].
  cbn [snd] in Hs. rewrite Hs. by apply IH.
Qed.

Lemma first_yielding_nothing (l : list (string * (response -> attempt)))
    (resp : response) (r : results) :
  yield_nothing l resp →
  first_yielding l resp r = (set_error "No JSON data found in the provided URL" r, None).
Proof.
  induction l as [|[n s] l IH]; intros Hn; [done|].
  apply Forall_cons in Hn as [Hs Hn]. cbn [first_yielding].
  cbn [snd] in Hs. rewrite Hs. by apply IH.
Qed.

(** An exception that leaves the [try] block is caught by one of the two
    handlers, which writes its message into the blank dictionary. *)
Lemma handler_failed (u : json) (now : datetime) (r0 : results) (e : exn)
    (fetched : list string) :
  try_block u (initial_results u now) = (r0, Some e, fetched) →
  failed_with e (extract_json_from_url u now).1.
Proof.
  intros Htry. unfold extract_json_from_url.
  assert (Hb : blank (initial_results u now)) by done.
  pose proof (try_block_left u _ Hb) as (_ & _ & Hout).
  rewrite Htry in Hout |- *. destruct Hout as (Hs & He & Ho & Hm & Hd).
  unfold failed_with. by destruct (is_request_exception e).
Qed.

Lemma try_block_strategies (u fetched : string) (resp : response) (now : datetime) :
  fetches u fetched resp →
  ∃ r', blank r' ∧
        try_block (JStr u) (initial_results (JStr u) now) =
          (first_yielding strategies resp r', [fetched]).
Proof.
  intros Hf. eexists. split; [|rewrite (try_block_fetched u fetched resp _ Hf);
                                by rewrite method_1_first].
  done.
Qed.

(** C5. [extract_json_from_url] returns its dictionary for every URL and
    whatever the collaborators do: no exception leaves it.  The
    dictionary carries the URL it was given and the time of the call, and
    it is of one of two shapes: [success] with no [error], at least one
    object and the name of the strategy that found them; or no [success],
    an [error] message (the fetch failed, the extraction faulted, or no
    JSON was found), no object and no method.  So [error] is set exactly
    when [success] is not.  Which of the two it is follows the cause:
    - a URL that is no string, a [urlparse] that raises, a [session.get]
      that raises and a response with an error status each give the
      failure with the message of the handler for that exception;
    - for a response that was fetched, the first strategy, in their
      order, that does not yield nothing decides: when it yields objects
      the result is the [success] with these objects, its name and no
      [error], when it faults the result is the failure for its
      exception;
    - when every strategy yields nothing the result is the failure
      "No JSON data found in the provided URL". *)
Theorem extract_json_from_url_well_formed (u : json) (now : datetime) :
  let r := (extract_json_from_url u now).1 in
  url r = u ∧ timestamp r = isoformat now ∧
  success r = (if error r is None then true else false) ∧
  ((success r = true ∧ error r = None ∧ json_objects r ≠ [] ∧
    ∃ name, extraction_method r = Some name ∧ name ∈ method_names) ∨
   (success r = false ∧ json_objects r = [] ∧ extraction_method r = None ∧
    data r = JNull ∧
    ∃ msg, error r = Some msg ∧
           (msg = "No JSON data found in the provided URL" ∨
            (∃ e, msg = "Failed to fetch the URL: " +:+ e) ∨
            (∃ e, msg = "Extraction error: " +:+ e)))) ∧
  ((∀ s, u ≠ JStr s) → failed_with (urlparse_type_error u) r) ∧
  (∀ s e, u = JStr s → urlparse_scheme s = inl e → failed_with e r) ∧
  (∀ s scheme,
     u = JStr s → urlparse_scheme s = inr scheme →
     let target := if Str.truthy scheme then s else "https://" +:+ s in
     (∀ e, session_get target = inl e → failed_with e r) ∧
     (∀ resp e, session_get target = inr resp → raise_for_status resp = Some e →
                failed_with e r) ∧
     (∀ resp,
        session_get target = inr resp → raise_for_status resp = None →
        (∀ before name strategy after_,
           strategies = before ++ (name, strategy) :: after_ →
           yield_nothing before resp →
           (∀ d o os, strategy resp = Yields d o os →
                      success r = true ∧ error r = None ∧
                      extraction_method r = Some name ∧ json_objects r = o :: os) ∧
           (∀ e, strategy resp = Faults e → failed_with e r)) ∧
        (yield_nothing strategies resp →
           success r = false ∧ json_objects r = [] ∧ extraction_method r = None ∧
           error r = Some "No JSON data found in the provided URL"))).
Proof.
  cbv zeta.
  split; [apply extract_json_from_url_url|].
  assert (Hshape :
    let r := (extract_json_from_url u now).1 in
    timestamp r = isoformat now ∧
    success r = (if error r is None then true else false) ∧
    ((success r = true ∧ error r = None ∧ json_objects r ≠ [] ∧
      ∃ name, extraction_method r = Some name ∧ name ∈ method_names) ∨
     (success r = false ∧ json_objects r = [] ∧ extraction_method r = None ∧
      data r = JNull ∧
      ∃ msg, error r = Some msg ∧
             (msg = "No JSON data found in the provided URL" ∨
              (∃ e, msg = "Failed to fetch the URL: " +:+ e) ∨
              (∃ e, msg = "Extraction error: " +:+ e))))).
  { unfold extract_json_from_url.
    set (r0 := initial_results u now).
    assert (Hb : blank r0) by done.
    destruct (try_block_left u r0 Hb) as (Hu & Ht & Hout).
    destruct (try_block u r0) as [[r oe] fetched]. simpl in *.
    destruct oe as [e|].
    - destruct Hout as (Hs & He & Ho & Hm & Hd).
      destruct (is_request_exception e); simpl;
        (split; [done|split; [done|]]; right;
         repeat split; try done; eexists; split; [done|]); eauto.
    - destruct Hout as [(Hs & He & Ho & Hm)|(Hs & Ho & Hm & Hd & He)]; simpl.
      + rewrite He, Hs. repeat split; try done. by left.
      + rewrite He, Hs. repeat split; try done. right.
        repeat split; try done. eauto. }
  cbv zeta in Hshape. destruct Hshape as (Ht & Hs & Hshape).
  split; [exact Ht|]. split; [exact Hs|]. split; [exact Hshape|].
  clear Ht Hs Hshape. split; [|split].
  - intros Hu. apply (handler_failed u now (initial_results u now) _ []).
    destruct u as [| | | |s| |]; try reflexivity. by destruct (Hu s).
  - intros s e -> Hparse.
    apply (handler_failed _ now (initial_results (JStr s) now) _ []).
    unfold try_block. by rewrite Hparse.
  - intros s scheme -> Hparse. cbv zeta.
    set (target := if Str.truthy scheme then s else "https://" +:+ s).
    split; [|split].
    + intros e Hget.
      apply (handler_failed _ now (initial_results (JStr s) now) _ [target]).
      unfold try_block. rewrite Hparse. fold target. by rewrite Hget.
    + intros resp e Hget Hstatus.
      apply (handler_failed _ now (initial_results (JStr s) now) _ [target]).
      unfold try_block. rewrite Hparse. fold target. by rewrite Hget, Hstatus.
    + intros resp Hget Hstatus.
      assert (Hf : fetches s target resp) by (by exists scheme).
      destruct (try_block_strategies s target resp now Hf) as (r' & Hb & Htry).
      destruct Hb as (Hs' & He' & Ho' & Hm' & Hd').
      split.
      * intros before name strategy after_ Hsplit Hbefore.
        rewrite Hsplit, (first_yielding_split _ _ _ _ _ _ Hbefore) in Htry.
        split.
        -- intros d o os Hy. rewrite Hy in Htry.
           unfold extract_json_from_url. rewrite Htry. by cbn.
        -- intros e Hfault. rewrite Hfault in Htry.
           by apply (handler_failed _ now r' _ [target]).
      * intros Hnone. rewrite (first_yielding_nothing _ _ _ Hnone) in Htry.
        unfold extract_json_from_url. rewrite Htry. by cbn.
Qed.


(** *** The URL *)

(** C3, as the code has it.  For an input URL without a scheme,
    [extract_json_from_url] fetches the URL with [https://] put before
    it, and the [url] of the dictionary it returns is the input URL as
    it was given, without the prefix; a URL with a scheme is fetched,
    and returned, as it is. *)
Theorem url_field_is_the_input (u scheme : string) (now : datetime) :
  urlparse_scheme u = inr scheme →
  let '(r, fetched) := extract_json_from_url (JStr u) now in
  url r = JStr u ∧
  fetched = [if Str.truthy scheme then u else "https://" +:+ u].
Proof.
  intros Hscheme.
  pose proof (extract_json_from_url_url (JStr u) now) as Hurl.
  unfold extract_json_from_url in *.
  destruct (try_block (JStr u) _) as [[r oe] fetched] eqn:Htry.
  assert (Hfetched : fetched = [if Str.truthy scheme then u else "https://" +:+ u]).
  { unfold try_block in Htry. rewrite Hscheme in Htry.
    destruct (session_get _) as [e|resp]; [by inversion Htry|].
    destruct (raise_for_status resp); by inversion Htry. }
  destruct oe as [e|]; [destruct (is_request_exception e)|]; by split.
Qed.

(** *** A JSON-LD script is a script *)



End ExtractorProperties.

(** *** The examples of the pipeline *)




(** The document with the one script element holding [{"a":1}], for
    which [direct_json] yields nothing and [script_tags] yields the
    object; and a URL at which the connection fails. *)
Lemma extract_json_from_url_well_formed_witness :
  (let r := (@extract_json_from_url ld_page (JStr "example.com") noon).1 in
   success r = true ∧ error r = None ∧ extraction_method r = Some "script_tags" ∧
   json_objects r = [script_tag_object ld_script a1]) ∧
  failed_with Model.connection_error
    (@extract_json_from_url ld_page (JStr "example.org") noon).1.
Proof.
  split.
  - cbv zeta.
    pose proof (@extract_json_from_url_well_formed ld_page (JStr "example.com") noon)
      as (_ & _ & _ & _ & _ & _ & H).
    destruct (H "example.com" EmptyString eq_refl) as (_ & _ & Hfetched);
      [vm_compute; reflexivity|].
    destruct (Hfetched ld_response) as [Hfirst _];
      [vm_compute; reflexivity|vm_compute; reflexivity|].
    destruct (Hfirst [("direct_json", direct_json)] "script_tags"
                (@script_tags ld_page)
                [("json_ld", @json_ld ld_page);
                 ("text_patterns", @text_patterns ld_page);
                 ("forced_json", forced_json)]) as [Hyields _].
    + reflexivity.
    + constructor; [vm_compute; reflexivity|constructor].
    + apply (Hyields None (script_tag_object ld_script a1) []).
      vm_compute. reflexivity.
  - pose proof (@extract_json_from_url_well_formed ld_page (JStr "example.org") noon)
      as (_ & _ & _ & _ & _ & _ & H).
    destruct (H "example.org" EmptyString eq_refl) as (Hget & _);
      [vm_compute; reflexivity|].
    apply Hget. vm_compute. reflexivity.
Defined.


(** C3 fails as stated: for the input [example.com], which has no scheme,
    the URL fetched is [https://example.com] and the [url] of the result
    is not that normalized URL. *)
Lemma url_field_not_normalized :
  let '(r, fetched) := @extract_json_from_url ld_page (JStr "example.com") noon in
  @urlparse_scheme ld_page "example.com" = inr EmptyString ∧
  fetched = ["https://example.com"] ∧
  url r ≠ JStr "https://example.com".
Proof.
  vm_compute. split; [reflexivity|]. split; [reflexivity|]. discriminate.
Qed.

(** The input [example.com]. *)
Lemma url_field_is_the_input_witness :
  @urlparse_scheme ld_page "example.com" = inr EmptyString ∧
  let '(r, fetched) := @extract_json_from_url ld_page (JStr "example.com") noon in
  url r = JStr "example.com" ∧ fetched = ["https://example.com"].
Proof.
  split; [vm_compute; reflexivity|].
  apply (@url_field_is_the_input ld_page "example.com" EmptyString noon).
  vm_compute; reflexivity.
Defined.

(** ** The route [/api/extract] *)

Lemma validate_api_key_valid (k : string) (now : datetime) (st st1 : manager)
    (kd : key_data) :
  validate_api_key k now st = (Valid kd, st1) → api_keys st1 !! k = Some kd.
Proof.
  unfold validate_api_key.
  destruct (api_keys st !! k) as [kd0|] eqn:Hk; [|done].
  destruct (is_active kd0); simpl; [|done].
  case_match; [done|]. by intros [= <- <-].
Qed.

Section RouteProperties.

Context {L : Libs}.

(** C4, as the code has it.  For a request whose API key passes
    [validate_api_key] and whose JSON body is an object with a [url] that
    is not empty, the handler calls [validate_api_key], then
    [extract_json_from_url], then [record_usage], once each, and its answer
    is the extraction result, whether or not the extraction succeeded; the
    store it leaves is the one [record_usage] leaves. *)
Theorem usage_recorded_once (req : request) (clock : readings) (st st1 : manager)
    (kd : key_data) (members : list (string * json)) (u : json) :
  Str.truthy (request_key req) = true →
  validate_api_key (request_key req) (at_validate clock) st = (Valid kd, st1) →
  body req = Some (JObj members) →
  Py.dict_get "url" members = Some u →
  Py.truthy u = true →
  let k := request_key req in
  let '(answer, st', calls) := api_extract_json req clock st in
  answer = {| status := 200;
              sent := Result (extract_json_from_url u (at_extract clock)).1 |} ∧
  calls = [CallValidate k; CallExtract u; CallRecordUsage k] ∧
  times_recorded calls = 1%nat ∧
  record_usage k (at_record clock) (at_last_used clock) st1 = (st', None).
Proof.
  intros Hkey Hvalid Hbody Hurl Hu. unfold api_extract_json.
  rewrite Hkey, Hvalid, Hbody. cbn [negb].
  assert (Hdata : Py.truthy (JObj members) = true).
  { destruct members; [discriminate Hurl|done]. }
  rewrite Hdata, Hurl, Hu. cbn [negb].
  pose proof (validate_api_key_valid _ _ _ _ _ Hvalid) as Hk.
  unfold record_usage. rewrite Hk. by cbn.
Qed.

End RouteProperties.

(** C4 fails as stated: a request that presents a valid key and carries no
    JSON body passes [validate_api_key] and is answered with status 400
    without any call of [record_usage]. *)
Lemma no_body_no_usage :
  let k := request_key request_without_body in
  let '(answer, st', calls) :=
    @api_extract_json ld_page request_without_body at_noon one_key.2 in
  (validate_api_key k noon one_key.2).1 = Valid one_key.1.2 ∧
  answer = {| status := 400; sent := Failure "JSON data required" |} ∧
  calls = [CallValidate k] ∧
  times_recorded calls ≠ 1%nat.
Proof.
  vm_compute. repeat split; discriminate.
Qed.

(** A request with a valid key for [example.com]. *)
Lemma usage_recorded_once_witness :
  let k := request_key request_for_example in
  let '(answer, st', calls) :=
    @api_extract_json ld_page request_for_example at_noon one_key.2 in
  answer = {| status := 200;
              sent := Result (@extract_json_from_url ld_page (JStr "example.com") noon).1 |} ∧
  calls = [CallValidate k; CallExtract (JStr "example.com"); CallRecordUsage k] ∧
  times_recorded calls = 1%nat ∧
  record_usage k noon noon (validate_api_key k noon one_key.2).2 = (st', None).
Proof.
  apply (@usage_recorded_once ld_page request_for_example at_noon one_key.2
           (validate_api_key (request_key request_for_example) noon one_key.2).2
           one_key.1.2 [("url", JStr "example.com")] (JStr "example.com")).
  - vm_compute; reflexivity.
  - vm_compute; reflexivity.
  - reflexivity.
  - reflexivity.
  - reflexivity.
Defined.

(** ** The examples of the key manager *)

(** A free key, used a hundred times on one day. *)
Lemma validate_api_key_checks_witness :
  let k := one_key.1.1 in
  let spent := record_all k (replicate 100 (noon, noon)) one_key.2 in
  (validate_api_key k noon spent).1 = Invalid "Daily request limit exceeded" ∧
  ∃ kd', (validate_api_key k next_day spent).1 = Valid kd' ∧
         api_keys spent !! k = Some kd'.
Proof.
  destruct (proj1 (proj2 validate_api_key_checks) one_key.1.1 "2024-05-17"
              one_key.2 one_key.1.2 (replicate 100 (noon, noon)))
    as [Hsame Hother].
  - vm_compute; reflexivity.
  - reflexivity.
  - vm_compute. discriminate.
  - apply Forall_replicate. reflexivity.
  - vm_compute; reflexivity.
  - split.
    + apply Hsame. reflexivity.
    + apply Hother.
      * vm_compute. discriminate.
      * vm_compute; reflexivity.
      * vm_compute; reflexivity.
Defined.

(** A key that was created, validated and used once. *)
Lemma total_requests_is_ledger_total_witness :
  counters_agree used_once ∧
  (∃ kd, api_keys used_once !! one_key.1.1 = Some kd ∧ total_requests kd = 1) ∧
  ledger_total one_key.1.1 (usage_data used_once) = 1.
Proof.
  split; [|split].
  - apply (proj2 (proj2 total_requests_is_ledger_total) empty_manager used_once).
    + apply (proj1 total_requests_is_ledger_total).
    + unfold used_once.
      apply reaches_step; [|exact I].
      apply reaches_step; [|exact I].
      apply reaches_step; [apply reaches_here|].
      split; [apply lookup_empty|].
      intros day entries H. simpl in H. rewrite lookup_empty in H. discriminate H.
  - eexists. split; vm_compute; reflexivity.
  - vm_compute; reflexivity.
Defined.

(** C8 fails as stated: [create_api_key] does not look whether the key it
    generates is in the store.  When the generator draws the key of a
    record again, after one request was recorded for it, the new record
    has [total_requests] 0 and the ledger entries of the key sum to 1. *)
Lemma repeated_key_total_is_not_ledger_total :
  reaches any_operation empty_manager repeated_key ∧
  (∃ kd, api_keys repeated_key !! one_key.1.1 = Some kd ∧
         total_requests kd = 0 ∧
         ledger_total one_key.1.1 (usage_data repeated_key) = 1) ∧
  ¬ counters_agree repeated_key.
Proof.
  assert (Hrecord : ∃ kd, api_keys repeated_key !! one_key.1.1 = Some kd ∧
                          total_requests kd = 0 ∧
                          ledger_total one_key.1.1 (usage_data repeated_key) = 1).
  { eexists. split; [|split]; vm_compute; reflexivity. }
  split; [|split; [exact Hrecord|]].
  - unfold repeated_key, used_once.
    do 4 (apply reaches_step; [|exact I]). apply reaches_here.
  - intros Hagree. destruct Hrecord as (kd & Hkd & Htotal & Hledger).
    specialize (Hagree _ _ Hkd). rewrite Htotal, Hledger in Hagree.
    discriminate Hagree.
Qed.

(** * Further properties *)

(** ** Texts *)

Lemma startswith_app (p s : string) :
  Str.startswith p s = true → ∃ r, s = p +:+ r.
Proof.
  unfold Str.startswith. revert s.
  induction p as [|a p IH]; intros s H.
  - by exists s.
  - destruct s as [|b s]; simpl in H; [discriminate|].
    destruct (ascii_dec a b) as [->|]; [|discriminate].
    destruct (IH s H) as [r ->]. by exists r.
Qed.

Lemma chars_app (a b : string) :
  Str.chars (a +:+ b) = Str.chars a ++ Str.chars b.
Proof. induction a as [|c a IH]; simpl; [done|]. by rewrite <- IH. Qed.

Lemma occurs_app (c : ascii) (a b : string) :
  occurs c (a +:+ b) ↔ occurs c a ∨ occurs c b.
Proof. unfold occurs. rewrite chars_app. apply in_app_iff. Qed.

(** ** The API keys and the [Authorization] header *)

(** A character is none of the characters listed in [H]. *)
#[local] Ltac none_of H :=
  repeat (destruct H as [H|H]; [discriminate H|]); exact H.

Lemma choice_occurs (cs : string) (n : nat) :
  cs ≠ EmptyString → occurs (choice cs n) cs.
Proof.
  intros Hne. unfold occurs, choice.
  assert (Hlen : length (Str.chars cs) = String.length cs).
  { clear. induction cs; simpl; congruence. }
  apply nth_In. rewrite Hlen. apply Nat.mod_upper_bound.
  destruct cs; [done|]. simpl. lia.
Qed.

Lemma generate_api_key_chars (draw : nat -> nat) :
  Str.chars (generate_api_key draw) =
    Str.chars "api_"
    ++ map (fun i => choice (ascii_letters +:+ digits) (draw i)) (seq 0 32).
Proof.
  unfold generate_api_key. cbv zeta.
  by rewrite chars_app, list_ascii_of_string_of_list_ascii.
Qed.

(** X1. A generated key is the prefix [api_] followed by thirty-two
    characters, each a letter or a digit of the character set, whatever the
    random source draws: thirty-six characters in all. *)
Theorem generate_api_key_format (draw : nat -> nat) :
  let k := generate_api_key draw in
  Str.startswith "api_" k = true ∧
  String.length k = 36%nat ∧
  length (Str.chars (Str.drop 4 k)) = 32%nat ∧
  Forall (fun c => occurs c (ascii_letters +:+ digits)) (Str.chars (Str.drop 4 k)).
Proof.
  cbv zeta.
  assert (Hdrop : Str.drop 4 (generate_api_key draw) =
            string_of_list_ascii
              (map (fun i => choice (ascii_letters +:+ digits) (draw i)) (seq 0 32)))
    by reflexivity.
  split; [reflexivity|]. split; [reflexivity|].
  rewrite Hdrop, list_ascii_of_string_of_list_ascii.
  split; [by rewrite length_map, length_seq|].
  apply Forall_map, Forall_forall. intros i _. by apply choice_occurs.
Qed.

Lemma generate_api_key_no_space (draw : nat -> nat) :
  ¬ occurs " " (generate_api_key draw).
Proof.
  unfold occurs. rewrite generate_api_key_chars, in_app_iff.
  intros [H|H].
  - simpl in H. none_of H.
  - apply in_map_iff in H as (i & Hi & _).
    pose proof (choice_occurs (ascii_letters +:+ digits) (draw i)) as Hc.
    rewrite Hi in Hc. unfold occurs in Hc.
    assert (Hin : In " "%char (Str.chars (ascii_letters +:+ digits))) by (by apply Hc).
    vm_compute in Hin. none_of Hin.
Qed.

Lemma bearer_needs_space (s : string) :
  ¬ occurs " " s → Str.startswith "Bearer " s = false.
Proof.
  intros Hs. destruct (Str.startswith "Bearer " s) eqn:H; [|done].
  apply startswith_app in H as [r ->]. destruct Hs.
  apply occurs_app. left. unfold occurs. simpl. tauto.
Qed.

Lemma replace_bearer_none (s : string) :
  ¬ occurs " " s → Str.replace_from "Bearer " "" 0 s = s.
Proof.
  induction s as [|c s IH]; intros Hs.
  - reflexivity.
  - cbn [Str.replace_from]. rewrite (bearer_needs_space _ Hs).
    f_equal. apply IH. intros H. apply Hs. unfold occurs in *. simpl. tauto.
Qed.

Lemma replace_bearer_prefix (k : string) :
  Str.replace "Bearer " "" ("Bearer " +:+ k) = Str.replace_from "Bearer " "" 0 k.
Proof. unfold Str.replace. destruct k; reflexivity. Qed.

(** X2. A key without a space that is sent as [Authorization: Bearer <key>]
    is the key the routes read from the request; so is every generated
    key.  The header [X-API-Key], when it is not empty, is read instead,
    whatever [Authorization] says. *)
Theorem bearer_key_recovered :
  (∀ k b, ¬ occurs " " k →
     request_key {| x_api_key := None;
                    authorization := Some ("Bearer " +:+ k); body := b |} = k) ∧
  (∀ draw b,
     request_key {| x_api_key := None;
                    authorization := Some ("Bearer " +:+ generate_api_key draw);
                    body := b |} = generate_api_key draw) ∧
  (∀ k a b, Str.truthy k = true →
     request_key {| x_api_key := Some k; authorization := a; body := b |} = k).
Proof.
  assert (H : ∀ k b, ¬ occurs " " k →
     request_key {| x_api_key := None;
                    authorization := Some ("Bearer " +:+ k); body := b |} = k).
  { intros k b Hk. unfold request_key. cbn [x_api_key authorization default].
    change (id ("Bearer " +:+ k)) with ("Bearer " +:+ k).
    rewrite replace_bearer_prefix. by apply replace_bearer_none. }
  split; [exact H|]. split.
  - intros draw b. apply H, generate_api_key_no_space.
  - intros k a b Hk. unfold request_key. cbn [x_api_key]. by rewrite Hk.
Qed.

(** The key [abc123], sent as a bearer token. *)
Lemma bearer_key_recovered_witness :
  request_key {| x_api_key := None; authorization := Some "Bearer abc123";
                 body := None |} = "abc123" ∧
  request_key {| x_api_key := Some "abc123"; authorization := Some "Bearer other";
                 body := None |} = "abc123".
Proof.
  split.
  - apply (proj1 bearer_key_recovered "abc123" None).
    unfold occurs. simpl. intros H. none_of H.
  - apply (proj2 (proj2 bearer_key_recovered) "abc123" (Some "Bearer other") None).
    reflexivity.
Defined.

(** ** The key manager: what is recorded and what is reported *)

Lemma record_all_cons (k : string) (t : datetime * datetime)
    (times : list (datetime * datetime)) (st : manager) :
  record_all k (t :: times) st = record_all k times (record_usage k t.1 t.2 st).1.
Proof. reflexivity. Qed.

(** X3. For a key with a record, [n] calls of [record_usage], on whatever
    days, add [n] to its lifetime counter and [n] to the sum of its ledger,
    set [last_used] to the time of the last call, and change nothing else
    of the record. *)
Theorem record_usage_counts (k : string) (times : list (datetime * datetime))
    (st : manager) (kd : key_data) :
  api_keys st !! k = Some kd →
  ∃ kd', api_keys (record_all k times st) !! k = Some kd' ∧
         total_requests kd' = total_requests kd + Z.of_nat (length times) ∧
         ledger_total k (usage_data (record_all k times st)) =
           ledger_total k (usage_data st) + Z.of_nat (length times) ∧
         last_used kd' =
           match last times with
           | Some t => Some (isoformat t.2)
           | None => last_used kd
           end ∧
         (user_email kd', api_key kd', plan_type kd', requests_per_day kd',
          rate_limit kd', created_at kd', is_active kd') =
         (user_email kd, api_key kd, plan_type kd, requests_per_day kd,
          rate_limit kd, created_at kd, is_active kd).
Proof.
  revert st kd. induction times as [|t times IH]; intros st kd Hkd.
  - exists kd. simpl. repeat split; [done|lia|lia].
  - rewrite record_all_cons.
    destruct (IH (record_usage k t.1 t.2 st).1 (used t.2 kd))
      as (kd' & Hkd' & Htotal & Hledger & Hlast & Hrest).
    { rewrite record_usage_keys, decide_True by done. by rewrite Hkd. }
    exists kd'. split; [done|].
    split; [rewrite Htotal; simpl; lia|].
    split.
    { rewrite Hledger, record_usage_ledger, ledger_total_ledger_after.
      rewrite decide_True by done. simpl length. lia. }
    split; [|done].
    rewrite Hlast, last_cons. by destruct (last times).
Qed.

(** Three calls for the key of [one_key], the last on the next day. *)
Lemma record_usage_counts_witness :
  ∃ kd', api_keys (record_all one_key.1.1
                     [(noon, noon); (noon, noon); (next_day, next_day)]
                     one_key.2) !! one_key.1.1 = Some kd' ∧
         total_requests kd' = 3 ∧
         last_used kd' = Some "2024-05-18T09:30:00".
Proof.
  destruct (record_usage_counts one_key.1.1
              [(noon, noon); (noon, noon); (next_day, next_day)]
              one_key.2 one_key.1.2)
    as (kd' & Hkd' & Htotal & _ & Hlast & _).
  - vm_compute; reflexivity.
  - exists kd'. split; [exact Hkd'|]. split; [exact Htotal|exact Hlast].
Defined.

(** X4. [record_usage] on a key that has no record raises [KeyError], and
    by then it has written the ledger: the count of the key for the day is
    one more, and the key records are as they were. *)
Theorem record_usage_unknown_key (k : string) (now now' : datetime) (st : manager) :
  api_keys st !! k = None →
  let '(st', raised) := record_usage k now now' st in
  raised = Some (key_error k) ∧
  api_keys st' = api_keys st ∧
  usage_get (strftime_ymd now) k (usage_data st') =
    usage_get (strftime_ymd now) k (usage_data st) + 1 ∧
  ∀ d k', (d, k') ≠ (strftime_ymd now, k) →
          usage_get d k' (usage_data st') = usage_get d k' (usage_data st).
Proof.
  intros Hk.
  pose proof (record_usage_ledger k now now' st) as Hledger.
  unfold record_usage in *. rewrite Hk in *. cbn [fst usage_data api_keys] in *.
  split; [done|]. split; [done|]. rewrite Hledger. split.
  - rewrite usage_get_ledger_after, decide_True by done. done.
  - intros d k' Hne. rewrite usage_get_ledger_after.
    rewrite decide_False; [lia|]. intros [<- <-]. done.
Qed.

(** A key that was never created, on the empty store. *)
Lemma record_usage_unknown_key_witness :
  let '(st', raised) := record_usage "api_unknown" noon noon empty_manager in
  raised = Some (key_error "api_unknown") ∧
  api_keys st' = ∅ ∧
  usage_get "2024-05-17" "api_unknown" (usage_data st') = 1.
Proof.
  pose proof (record_usage_unknown_key "api_unknown" noon noon empty_manager) as H.
  destruct (record_usage "api_unknown" noon noon empty_manager) as [st' raised].
  destruct H as (Hr & Hk & Hu & _); [reflexivity|].
  split; [exact Hr|]. split; [exact Hk|]. exact Hu.
Defined.

(** X5. [validate_api_key], whatever it answers, changes nothing that
    [get_key_stats] or the health check report: the statistics of every
    key at every time, and the number of keys, are as before. *)
Theorem validate_api_key_unseen (k : string) (now : datetime) (st : manager) :
  (∀ k' now', get_key_stats k' now' (validate_api_key k now st).2
              = get_key_stats k' now' st) ∧
  (∀ now', health_check now' (validate_api_key k now st).2 = health_check now' st).
Proof.
  split.
  - intros k' now'. unfold get_key_stats.
    by rewrite validate_api_key_keys, validate_api_key_ledger.
  - intros now'. unfold health_check. by rewrite validate_api_key_keys.
Qed.

(** X6. After [record_usage] on a key with a record, [get_key_stats]
    reports for that key a lifetime total that is one more, the time of
    the call as [last_used], and a usage for today that is one more when
    today is the day of the call and unchanged otherwise; the statistics
    of every other key are unchanged. *)
Theorem get_key_stats_after_record_usage (k : string) (now now' t : datetime)
    (st : manager) (stats : key_stats) :
  get_key_stats k t st = Some stats →
  get_key_stats k t (record_usage k now now' st).1 =
    Some {| stats_api_key := stats_api_key stats;
            stats_user_email := stats_user_email stats;
            stats_plan_type := stats_plan_type stats;
            stats_today_usage :=
              stats_today_usage stats
              + (if decide (strftime_ymd now = strftime_ymd t) then 1 else 0);
            stats_daily_limit := stats_daily_limit stats;
            stats_total_requests := stats_total_requests stats + 1;
            stats_last_used := Some (isoformat now');
            stats_created_at := stats_created_at stats |} ∧
  ∀ k', k' ≠ k →
        get_key_stats k' t (record_usage k now now' st).1 = get_key_stats k' t st.
Proof.
  intros Hstats. split.
  - unfold get_key_stats in *.
    rewrite record_usage_keys, decide_True by done.
    destruct (api_keys st !! k) as [kd|]; [|done].
    injection Hstats as <-. cbn.
    rewrite record_usage_ledger, usage_get_ledger_after.
    do 2 f_equal.
    destruct (decide (strftime_ymd now = strftime_ymd t)) as [He|Hne];
      [rewrite decide_True by done|rewrite decide_False by (by intros [? ?])];
      done.
  - intros k' Hne. unfold get_key_stats.
    rewrite record_usage_keys, decide_False by done.
    destruct (api_keys st !! k'); [|done].
    rewrite record_usage_ledger, usage_get_ledger_after.
    rewrite decide_False by (by intros [_ ?]). by rewrite Z.add_0_r.
Qed.

(** The key of [one_key], used at noon and asked about the same day. *)
Lemma get_key_stats_after_record_usage_witness :
  ∃ stats, get_key_stats one_key.1.1 noon (record_usage one_key.1.1 noon noon one_key.2).1
             = Some stats ∧
           stats_today_usage stats = 1 ∧ stats_total_requests stats = 1 ∧
           stats_last_used stats = Some "2024-05-17T12:00:00".
Proof.
  destruct (get_key_stats one_key.1.1 noon one_key.2) as [stats|] eqn:Hstats;
    [|vm_compute in Hstats; discriminate Hstats].
  destruct (get_key_stats_after_record_usage one_key.1.1 noon noon noon
              one_key.2 stats Hstats) as [H _].
  eexists. split; [exact H|].
  vm_compute in Hstats. injection Hstats as <-.
  split; [reflexivity|]. split; reflexivity.
Defined.

(** X7. The number of keys the health check reports changes only when
    [create_api_key] generates a key that has no record yet, and then by
    one; a key generated twice replaces its record and the number stays. *)
Theorem api_keys_count_steps (o : operation) (st : manager) (t : datetime) :
  api_keys_count (health_check t (perform o st)) =
    (api_keys_count (health_check t st)
     + match o with
       | CreateKey _ _ draw _ =>
           if api_keys st !! generate_api_key draw is None then 1 else 0
       | _ => 0
       end)%nat.
Proof.
  unfold health_check. cbn [api_keys_count].
  destruct o as [e p draw now|k now|k now now'|k now]; cbn [perform].
  - unfold create_api_key. cbn [snd api_keys]. rewrite map_size_insert.
    destruct (api_keys st !! generate_api_key draw); simpl; lia.
  - rewrite validate_api_key_keys. lia.
  - unfold record_usage.
    destruct (api_keys st !! k) as [kd|] eqn:Hk; cbn [fst api_keys]; [|lia].
    rewrite map_size_insert_Some by eauto. lia.
  - lia.
Qed.

Lemma perform_sound (o : operation) (st : manager) :
  (∀ k kd, api_keys st !! k = Some kd → sound_record k kd) →
  ∀ k kd, api_keys (perform o st) !! k = Some kd → sound_record k kd.
Proof.
  intros Hst k kd.
  destruct o as [e p draw now|k0 now|k0 now now'|k0 now]; cbn [perform].
  - unfold create_api_key. cbn [snd api_keys].
    destruct (decide (generate_api_key draw = k)) as [<-|Hne].
    + rewrite lookup_insert_eq. intros [= <-].
      split; [done|]. split; [|done]. cbn [requests_per_day rate_limit].
      rewrite plan_limits_cases. unfold plan_rows.
      repeat case_match; cbn; rewrite !elem_of_cons; tauto.
    + rewrite lookup_insert_ne by done. apply Hst.
  - rewrite validate_api_key_keys. apply Hst.
  - rewrite record_usage_keys.
    destruct (decide (k0 = k)) as [<-|Hne]; [|apply Hst].
    destruct (api_keys st !! k0) as [kd0|] eqn:Hk; [|done].
    intros [= <-]. destruct (Hst k0 kd0 Hk) as (Hkey & Hrow & Htotal).
    split; [done|]. split; [done|]. simpl. lia.
  - apply Hst.
Qed.

(** X8. In every store that the operations lead to from the empty one,
    even when a generated key repeats, each record is stored under its own
    key, carries the daily limit and the rate limit of one and the same
    row of the plan table, and has a lifetime counter that is not
    negative. *)
Theorem records_stay_sound (st : manager) :
  reaches any_operation empty_manager st →
  ∀ k kd, api_keys st !! k = Some kd → sound_record k kd.
Proof.
  intros Hreach. induction Hreach as [|o st' Hreach IH _].
  - intros k kd. unfold empty_manager. cbn [api_keys]. by rewrite lookup_empty.
  - by apply perform_sound.
Qed.

(** The store in which one key was created, validated and used. *)
Lemma records_stay_sound_witness :
  ∃ kd, api_keys used_once !! one_key.1.1 = Some kd ∧
        sound_record one_key.1.1 kd.
Proof.
  destruct (api_keys used_once !! one_key.1.1) as [kd|] eqn:Hkd;
    [|vm_compute in Hkd; discriminate Hkd].
  exists kd. split; [reflexivity|].
  apply (records_stay_sound used_once); [|exact Hkd].
  unfold used_once.
  apply reaches_step; [|exact I].
  apply reaches_step; [|exact I].
  apply reaches_step; [apply reaches_here|exact I].
Defined.

(** ** The routes *)

Lemma validate_api_key_below_limit (k : string) (now : datetime) (st st1 : manager)
    (kd : key_data) :
  validate_api_key k now st = (Valid kd, st1) →
  api_keys st !! k = Some kd ∧
  usage_get (strftime_ymd now) k (usage_data st) < requests_per_day kd ∧
  st1 = (validate_api_key k now st).2.
Proof.
  intros Hv. pose proof (validate_api_key_outcome k now st) as Hout.
  rewrite Hv in Hout. cbn [fst] in Hout.
  destruct (api_keys st !! k) as [kd0|]; [|done].
  destruct (is_active kd0); simpl in Hout; [|done].
  case_match eqn:Hle; [done|]. injection Hout as <-.
  apply Z.leb_gt in Hle. by rewrite Hv.
Qed.

Section FurtherRoutes.

Context {L : Libs}.

(** The two ways [api_extract_json] ends: with the extraction done and
    recorded, or with a refusal after at most the validation. *)
Lemma api_extract_json_cases (req : request) (clock : readings) (st : manager) :
  let k := request_key req in
  let '(answer, st', calls) := api_extract_json req clock st in
  (∃ u kd st1,
      Str.truthy k = true ∧
      validate_api_key k (at_validate clock) st = (Valid kd, st1) ∧
      answer = {| status := 200;
                  sent := Result (extract_json_from_url u (at_extract clock)).1 |} ∧
      st' = (record_usage k (at_record clock) (at_last_used clock) st1).1 ∧
      calls = [CallValidate k; CallExtract u; CallRecordUsage k]) ∨
  (status answer ≠ 200 ∧
   (st' = st ∨ st' = (validate_api_key k (at_validate clock) st).2) ∧
   (calls = [] ∨ calls = [CallValidate k])).
Proof.
  cbv zeta. unfold api_extract_json.
  destruct (Str.truthy (request_key req)) eqn:Hkey; cbn [negb];
    [|right; split; [done|]; auto].
  destruct (validate_api_key _ _ st) as [[kd|msg] st1] eqn:Hv;
    [|right; split; [done|]; auto].
  assert (Hrej : ∀ a, status a ≠ 200 →
            status a ≠ 200 ∧
            (st1 = st ∨ st1 = (Valid kd, st1).2) ∧
            ([CallValidate (request_key req)] = []
             ∨ [CallValidate (request_key req)] = [CallValidate (request_key req)]))
    by auto.
  destruct (body req) as [data|]; [|right; by apply Hrej].
  destruct (Py.truthy data); cbn [negb]; [|right; by apply Hrej].
  destruct data as [| | | | | |members]; try (right; by apply Hrej).
  destruct (Py.dict_get "url" members) as [u|]; [|right; by apply Hrej].
  destruct (Py.truthy u); cbn [negb]; [|right; by apply Hrej].
  pose proof (validate_api_key_valid _ _ _ _ _ Hv) as Hk.
  unfold record_usage. rewrite Hk. cbn [fst].
  left. exists u, kd, st1. repeat split. by rewrite Hk.
Qed.

(** X9. [api_extract_json] answers with status 200 exactly when it has
    called [record_usage], which it does at most once.  When it answers
    otherwise the extractor was not called, and what [get_key_stats]
    reports, for every key and time, is what it reported before the
    request. *)
Theorem usage_recorded_iff_answered (req : request) (clock : readings) (st : manager) :
  let '(answer, st', calls) := api_extract_json req clock st in
  (status answer = 200 ↔ times_recorded calls = 1%nat) ∧
  (times_recorded calls ≤ 1)%nat ∧
  (status answer ≠ 200 →
     (∀ u, CallExtract u ∉ calls) ∧
     ∀ k t, get_key_stats k t st' = get_key_stats k t st).
Proof.
  pose proof (api_extract_json_cases req clock st) as H. cbv zeta in H.
  destruct (api_extract_json req clock st) as [[answer st'] calls].
  destruct H as [(u & kd & st1 & _ & _ & -> & _ & ->)|(Hs & Hst & Hcalls)].
  - cbn. split; [done|]. split; [lia|done].
  - assert (Hzero : times_recorded calls = 0%nat)
      by (by destruct Hcalls as [-> | ->]).
    rewrite Hzero. split; [split; [done|discriminate]|]. split; [lia|].
    intros _. split.
    + intros u Hin. destruct Hcalls as [-> | ->].
      * by apply elem_of_nil in Hin.
      * apply list_elem_of_singleton in Hin. discriminate Hin.
    + intros k t. destruct Hst as [-> | ->]; [done|].
      unfold get_key_stats.
      by rewrite validate_api_key_keys, validate_api_key_ledger.
Qed.

(** X10. When the validation and [record_usage] read the same day from the
    clock, [api_extract_json] keeps every key within its daily limit: if
    no key had a count for a day above its limit before the request, none
    has after it. *)
Theorem api_extract_json_within_quota (req : request) (clock : readings) (st : manager) :
  within_quota st →
  strftime_ymd (at_validate clock) = strftime_ymd (at_record clock) →
  within_quota (api_extract_json req clock st).1.2.
Proof.
  intros Hq Hday.
  assert (Hvq : within_quota
                  (validate_api_key (request_key req) (at_validate clock) st).2).
  { intros k kd d. rewrite validate_api_key_keys, validate_api_key_ledger.
    apply Hq. }
  pose proof (api_extract_json_cases req clock st) as H. cbv zeta in H.
  destruct (api_extract_json req clock st) as [[answer st'] calls]. cbn [fst snd].
  destruct H as [(u & kd & st1 & _ & Hv & _ & -> & _)|(_ & [-> | ->] & _)];
    [|done|done].
  apply validate_api_key_below_limit in Hv as (Hkd & Hlt & ->).
  intros k' kd' d.
  rewrite record_usage_keys, record_usage_ledger, usage_get_ledger_after.
  rewrite validate_api_key_keys, validate_api_key_ledger.
  destruct (decide (request_key req = k')) as [<-|Hne].
  - rewrite Hkd. intros [= <-]. cbn [requests_per_day used].
    destruct (decide (strftime_ymd (at_record clock) = d)) as [<-|Hd].
    + rewrite decide_True by done. rewrite <- Hday. lia.
    + rewrite decide_False by (by intros [? ?]).
      specialize (Hq _ _ d Hkd). lia.
  - intros Hkd'. rewrite decide_False by (by intros [? ?]).
    specialize (Hq _ _ d Hkd'). lia.
Qed.

(** X11. For a request whose key passes the validation, the answer of
    [api_extract_json] is the answer [public_extract_json] gives to the
    same body at the time of the extraction: the key decides whether the
    request is served, not what is answered. *)
Theorem api_answer_is_public_answer (req : request) (clock : readings)
    (st st1 : manager) (kd : key_data) :
  Str.truthy (request_key req) = true →
  validate_api_key (request_key req) (at_validate clock) st = (Valid kd, st1) →
  (api_extract_json req clock st).1.1 = public_extract_json req (at_extract clock).
Proof.
  intros Hkey Hv. unfold api_extract_json, public_extract_json.
  rewrite Hkey, Hv. cbn [negb].
  destruct (body req) as [data|]; [|done].
  destruct (Py.truthy data); cbn [negb]; [|done].
  destruct data as [| | | | | |members]; try done.
  destruct (Py.dict_get "url" members) as [u|]; [|done].
  destruct (Py.truthy u); cbn [negb]; [|done].
  pose proof (validate_api_key_valid _ _ _ _ _ Hv) as Hk.
  unfold record_usage. by rewrite Hk.
Qed.

End FurtherRoutes.

Lemma within_quota_one_key : within_quota one_key.2.
Proof.
  intros k kd d. unfold one_key, create_api_key, empty_manager, usage_get.
  cbn [snd api_keys usage_data]. rewrite lookup_empty. cbn [default].
  rewrite lookup_empty. cbn [default].
  destruct (decide (generate_api_key (fun i => i) = k)) as [<-|Hne].
  - rewrite lookup_insert_eq. intros [= <-]. cbn [requests_per_day].
    pose proof (plan_limits_positive "free"). lia.
  - rewrite lookup_insert_ne, lookup_empty by done. done.
Qed.

(** The request for [example.com] with the key of [one_key], all clock
    readings at noon. *)
Lemma api_extract_json_within_quota_witness :
  let st' := (@api_extract_json ld_page request_for_example at_noon one_key.2).1.2 in
  within_quota st' ∧ usage_get "2024-05-17" one_key.1.1 (usage_data st') = 1.
Proof.
  split.
  - apply (@api_extract_json_within_quota ld_page request_for_example at_noon
             one_key.2).
    + exact within_quota_one_key.
    + reflexivity.
  - vm_compute; reflexivity.
Defined.

Lemma api_answer_is_public_answer_witness :
  (@api_extract_json ld_page request_for_example at_noon one_key.2).1.1 =
    @public_extract_json ld_page request_for_example noon.
Proof.
  apply (@api_answer_is_public_answer ld_page request_for_example at_noon one_key.2
           (validate_api_key (request_key request_for_example) noon one_key.2).2
           one_key.1.2).
  - vm_compute; reflexivity.
  - vm_compute; reflexivity.
Defined.

(** X12. The statistics routes ask only for a record.  A key that
    [validate_api_key] refuses as inactive or as over its daily limit is
    still answered by [api_get_stats] with status 200 and its statistics;
    a key without a record is answered with status 401.  The route
    [/key-stats], given the same key in its body, sends the same
    statistics or the same message, but with status 200 in both cases. *)
Theorem statistics_need_only_a_record (req : request) (now : datetime) (st : manager) :
  Str.truthy (request_key req) = true →
  (∀ t message,
      (validate_api_key (request_key req) t st).1 = Invalid message →
      message ≠ "Invalid API key" →
      ∃ stats, api_get_stats req now st
               = {| stats_status := 200; stats_sent := StatsFound stats |}) ∧
  (api_keys st !! request_key req = None →
     api_get_stats req now st
     = {| stats_status := 401; stats_sent := StatsFailure "Invalid API key" |}) ∧
  (∀ members,
      body req = Some (JObj members) →
      Py.dict_get "api_key" members = Some (JStr (request_key req)) →
      stats_sent (key_stats_route req now st) = stats_sent (api_get_stats req now st) ∧
      stats_status (key_stats_route req now st) = 200).
Proof.
  intros Hkey. unfold api_get_stats, key_stats_route, get_key_stats.
  rewrite Hkey. cbn [negb]. split; [|split].
  - intros t message Hv Hmsg. rewrite validate_api_key_outcome in Hv.
    destruct (api_keys st !! request_key req) as [kd|]; [eauto|].
    by injection Hv as <-.
  - by intros ->.
  - intros members -> ->.
    by destruct (api_keys st !! request_key req).
Qed.

(** The key of [one_key] after a hundred calls on one day: refused by the
    validation, answered by the statistics. *)
Lemma statistics_need_only_a_record_witness :
  let k := one_key.1.1 in
  let spent := record_all k (replicate 100 (noon, noon)) one_key.2 in
  let req := {| x_api_key := Some k; authorization := None;
                body := Some (JObj [("api_key", JStr k)]) |} in
  (validate_api_key k noon spent).1 = Invalid "Daily request limit exceeded" ∧
  (∃ stats, api_get_stats req noon spent
            = {| stats_status := 200; stats_sent := StatsFound stats |}) ∧
  stats_sent (key_stats_route req noon spent) = stats_sent (api_get_stats req noon spent).
Proof.
  cbv zeta.
  set (k := one_key.1.1).
  set (spent := record_all k (replicate 100 (noon, noon)) one_key.2).
  set (req := {| x_api_key := Some k; authorization := None;
                 body := Some (JObj [("api_key", JStr k)]) |}).
  assert (Hv : (validate_api_key k noon spent).1 = Invalid "Daily request limit exceeded")
    by (vm_compute; reflexivity).
  destruct (statistics_need_only_a_record req noon spent) as (Hstats & _ & Hbody);
    [reflexivity|].
  split; [exact Hv|]. split.
  - apply (Hstats noon "Daily request limit exceeded"); [exact Hv|discriminate].
  - apply (Hbody [("api_key", JStr k)]); reflexivity.
Defined.

(** The request without a body, with the key of [one_key]: answered with
    status 400, nothing recorded, the statistics as before. *)
Lemma usage_recorded_iff_answered_witness :
  let '(answer, st', calls) :=
    @api_extract_json ld_page request_without_body at_noon one_key.2 in
  status answer = 400 ∧ times_recorded calls = 0%nat ∧
  (∀ u, CallExtract u ∉ calls) ∧
  ∀ k t, get_key_stats k t st' = get_key_stats k t one_key.2.
Proof.
  pose proof (@usage_recorded_iff_answered ld_page request_without_body at_noon
                one_key.2) as H.
  destruct (@api_extract_json ld_page request_without_body at_noon one_key.2)
    as [[answer st'] calls] eqn:Hrun.
  assert (Hstatus : status answer = 400).
  { vm_compute in Hrun. by injection Hrun as <- _ _. }
  assert (Hcalls : times_recorded calls = 0%nat).
  { vm_compute in Hrun. by injection Hrun as _ _ <-. }
  destruct H as (_ & _ & Hrest).
  split; [exact Hstatus|]. split; [exact Hcalls|].
  apply Hrest. rewrite Hstatus. discriminate.
Defined.

(** ** The storage files *)

Lemma strip_spaces (s : string) :
  Forall (fun c => isspace c = true) (Str.chars s) → strip s = EmptyString.
Proof.
  intros Hs. unfold strip.
  induction s as [|a s IH]; [done|].
  simpl in Hs. apply Forall_cons in Hs as [Ha Hs].
  simpl. rewrite Ha. by apply IH.
Qed.

Section StorageProperties.

Context {L : Libs} {E : LoadsError}.


(** X14. [load_data] never fails on a file that is missing or blank: a
    missing file is created with the text [{}], a file that holds only
    white space (or nothing) is left as it is, and in both cases the data
    returned is the empty object. *)
Theorem load_data_missing_or_blank (filename : string) (fs : gmap string string) :
  (fs !! filename = None →
     load_data filename fs = (inr (JObj []), <[filename := "{}"]> fs)) ∧
  (∀ raw, fs !! filename = Some raw →
          Forall (fun c => isspace c = true) (Str.chars raw) →
          load_data filename fs = (inr (JObj []), fs)).
Proof.
  unfold load_data. split.
  - by intros ->.
  - intros raw -> Hraw. by rewrite (strip_spaces raw Hraw).
Qed.

End StorageProperties.


(** A usage file of three blanks and a line end, and no keys file. *)
Lemma load_data_missing_or_blank_witness :
  let fs : gmap string string := {[ USAGE_FILE := "   " +:+ String Str.lf EmptyString ]} in
  @load_data ld_page decode_errors API_KEYS_FILE fs
    = (inr (JObj []), <[API_KEYS_FILE := "{}"]> fs) ∧
  @load_data ld_page decode_errors USAGE_FILE fs = (inr (JObj []), fs).
Proof.
  cbv zeta.
  set (fs := ({[ USAGE_FILE := "   " +:+ String Str.lf EmptyString ]} : gmap string string)).
  destruct (@load_data_missing_or_blank ld_page decode_errors API_KEYS_FILE fs)
    as [Hmissing _].
  destruct (@load_data_missing_or_blank ld_page decode_errors USAGE_FILE fs)
    as [_ Hblank].
  split.
  - apply Hmissing. vm_compute; reflexivity.
  - apply (Hblank ("   " +:+ String Str.lf EmptyString)).
    + vm_compute; reflexivity.
    + repeat constructor.
Defined.

(** ** The pattern matcher: what a candidate is *)

Lemma match_here_split (p : Re.pattern) :
  ∀ s m r, Re.match_here p s = Some (m, r) → s = m +:+ r.
Proof.
  induction p as [|[c|c] p IH]; intros s m r H.
  - simpl in H. by injection H as <- <-.
  - destruct s as [|a s]; simpl in H; [discriminate|].
    destruct (Re.accepts c a); [|discriminate].
    destruct (Re.match_here p s) as [[m' r']|] eqn:E; simpl in H; [|discriminate].
    injection H as <- <-. by rewrite (IH _ _ _ E).
  - revert m r H. induction s as [|a s IHs]; intros m r H.
    + simpl in H. by apply IH.
    + simpl in H. destruct (Re.accepts c a); [|by apply IH].
      match type of H with
      | match ?star s with _ => _ end = _ =>
          change (star s) with (Re.match_here (Re.Star c :: p) s) in H
      end.
      destruct (Re.match_here (Re.Star c :: p) s) as [[m' r']|] eqn:E.
      * injection H as <- <-. by rewrite (IHs m' r' eq_refl).
      * by apply IH.
Qed.

(** A literal character of the pattern is in every match. *)
Lemma match_here_literal (x : ascii) (p : Re.pattern) :
  In (Re.One (Re.Only [x])) p →
  ∀ s m r, Re.match_here p s = Some (m, r) → occurs x m.
Proof.
  induction p as [|[c|c] p IH]; intros Hin s m r H.
  - destruct Hin.
  - destruct s as [|a s]; simpl in H; [discriminate|].
    destruct (Re.accepts c a) eqn:Ha; [|discriminate].
    destruct (Re.match_here p s) as [[m' r']|] eqn:E; simpl in H; [|discriminate].
    injection H as <- <-. unfold occurs. simpl.
    destruct Hin as [Hc|Hin].
    + left. injection Hc as ->. simpl in Ha. unfold Str.mem in Ha. simpl in Ha.
      rewrite orb_false_r in Ha. by apply Ascii.eqb_eq in Ha.
    + right. by apply (IH Hin s m' r').
  - destruct Hin as [Hc|Hin]; [discriminate Hc|].
    revert m r H. induction s as [|a s IHs]; intros m r H.
    + simpl in H. by apply (IH Hin _ _ _ H).
    + simpl in H. destruct (Re.accepts c a); [|by apply (IH Hin _ _ _ H)].
      match type of H with
      | match ?star s with _ => _ end = _ =>
          change (star s) with (Re.match_here (Re.Star c :: p) s) in H
      end.
      destruct (Re.match_here (Re.Star c :: p) s) as [[m' r']|] eqn:E.
      * injection H as <- <-. unfold occurs. simpl. right.
        by apply (IHs m' r' eq_refl).
      * by apply (IH Hin _ _ _ H).
Qed.

Lemma substring_of_cons (a : ascii) (c s : string) :
  substring_of c s → substring_of c (String a s).
Proof. intros (b & e & ->). by exists (String a b), e. Qed.

(** Every match [re.findall] returns is a match of the pattern at some
    place of the text. *)
Lemma findall_from_matches (p : Re.pattern) (s : string) :
  ∀ skip c, c ∈ Re.findall_from p skip s →
            substring_of c s ∧ ∃ s' r, Re.match_here p s' = Some (c, r).
Proof.
  induction s as [|a s IH]; intros skip c Hc.
  - destruct skip; simpl in Hc; [|by apply elem_of_nil in Hc].
    destruct (Re.match_here p "") as [[m r]|] eqn:E; [|by apply elem_of_nil in Hc].
    apply list_elem_of_singleton in Hc as ->. split; [|eauto].
    exists EmptyString, r. by apply match_here_split in E.
  - destruct skip as [|k]; simpl in Hc.
    + destruct (Re.match_here p (String a s)) as [[m r]|] eqn:E.
      * apply elem_of_cons in Hc as [->|Hc].
        -- split; [|eauto]. exists EmptyString, r. by apply match_here_split in E.
        -- destruct (IH _ _ Hc) as [Hsub Hm]. split; [|done].
           by apply substring_of_cons.
      * destruct (IH _ _ Hc) as [Hsub Hm]. split; [|done].
        by apply substring_of_cons.
    + destruct (IH _ _ Hc) as [Hsub Hm]. split; [|done].
      by apply substring_of_cons.
Qed.

Lemma occurs_substring (x : ascii) (c s : string) :
  substring_of c s → occurs x c → occurs x s.
Proof.
  intros (b & e & ->) Hx. apply occurs_app. right. apply occurs_app. by left.
Qed.

Lemma candidates_braced (text c : string) :
  c ∈ find_json_objects text →
  substring_of c text ∧ occurs "{" c ∧ occurs "}" c.
Proof.
  rewrite find_json_objects_unfold, !elem_of_app. unfold Re.findall.
  assert (Hpat : ∀ pat, pat ∈ patterns →
            ∃ p, Re.compile pat = Some p ∧
                 In (Re.One (Re.Only ["{"%char])) p ∧
                 In (Re.One (Re.Only ["}"%char])) p).
  { intros pat Hin. unfold patterns in Hin.
    rewrite !elem_of_cons in Hin.
    destruct Hin as [->|[->|[->|Hin]]]; [| | |by apply elem_of_nil in Hin];
      (eexists; split; [vm_compute; reflexivity|split; simpl; tauto]). }
  assert (Hone : ∀ pat, pat ∈ patterns →
            c ∈ default [] (p ← Re.compile pat; Some (Re.findall_from p 0 text)) →
            substring_of c text ∧ occurs "{" c ∧ occurs "}" c).
  { intros pat Hin Hc. destruct (Hpat pat Hin) as (p & Hcomp & Hopen & Hclose).
    rewrite Hcomp in Hc. simpl in Hc. destruct (findall_from_matches p text 0 c Hc) as (Hsub & s' & r & Hm).
    split; [done|]. split.
    - by apply (match_here_literal _ p Hopen s' c r).
    - by apply (match_here_literal _ p Hclose s' c r). }
  unfold patterns in Hone.
  intros [H|[H|H]]; (eapply Hone; [|exact H]); rewrite !elem_of_cons; tauto.
Qed.

Section CandidateProperties.

Context {L : Libs}.

(** X15. Every candidate of [find_json_objects] is a substring of the text
    and has an opening and a closing brace in it.  So a text that lacks one
    of the two braces has no candidate, and [extract_json_from_text] finds
    no object in it, whatever [json.loads] accepts. *)
Theorem candidates_are_braced_substrings (text : string) :
  (∀ c, c ∈ find_json_objects text →
        substring_of c text ∧ occurs "{" c ∧ occurs "}" c) ∧
  (¬ occurs "{" text ∨ ¬ occurs "}" text →
     find_json_objects text = [] ∧ extract_json_from_text text = []).
Proof.
  split; [apply candidates_braced|].
  intros Hno.
  assert (Hnil : find_json_objects text = []).
  { destruct (find_json_objects text) as [|c cs] eqn:E; [done|].
    destruct (candidates_braced text c) as (Hsub & Hopen & Hclose).
    { rewrite E. apply elem_of_cons. by left. }
    destruct Hno as [Hno|Hno]; destruct Hno; by eapply occurs_substring. }
  split; [done|]. by rewrite extract_json_from_text_omap, Hnil.
Qed.

End CandidateProperties.

(** The text [[1, 2, 3]], which has no brace. *)
Lemma candidates_are_braced_substrings_witness :
  find_json_objects "[1, 2, 3]" = [] ∧
  @extract_json_from_text ld_page "[1, 2, 3]" = [].
Proof.
  apply (proj2 (@candidates_are_braced_substrings ld_page "[1, 2, 3]")).
  left. unfold occurs. simpl. intros H. none_of H.
Defined.

(** ** The extraction: what a result holds *)





Section ResultProperties.

Context {L : Libs}.



Lemma json_ld_objects (html : string) (objs : list extracted) :
  extract_json_ld html = inr objs →
  Forall (fun o => obj_type o = "json_ld" ∧ obj_script_type o = None) objs.
Proof.
  unfold extract_json_ld.
  destruct (find_all_script html) as [e|scripts]; [done|].
  intros [= <-].
  generalize (filter (fun s => is_json_ld s = true) scripts). intros lds.
  assert (H : ∀ acc,
    Forall (fun o => obj_type o = "json_ld" ∧ obj_script_type o = None) acc →
    Forall (fun o => obj_type o = "json_ld" ∧ obj_script_type o = None)
      (fold_left
         (fun json_objects s =>
            match string_ s with
            | Some script_content =>
                if Str.truthy script_content then
                  match json_loads script_content with
                  | Some json_data => json_objects ++ [json_ld_object json_data]
                  | None => json_objects
                  end
                else json_objects
            | None => json_objects
            end) lds acc)).
  { induction lds as [|s lds IH]; intros acc Hacc; [done|].
    cbn [fold_left]. apply IH.
    destruct (string_ s) as [c|]; [|done].
    destruct (Str.truthy c); [|done].
    destruct (json_loads c) as [j|]; [|done].
    apply Forall_app. split; [done|]. by apply Forall_singleton. }
  by apply H.
Qed.








End ResultProperties.

Section FetchProperties.

Context {L : Libs}.

(** X17. A response with a status from 400 to 599 is a failed fetch,
    whatever it carries: its headers and body are not looked at, the
    result has no content type, size zero and no object, and its error
    is the message of the status after "Failed to fetch the URL: ". *)
Theorem error_status_is_a_failed_fetch (u scheme : string) (resp : response)
    (now : datetime) :
  urlparse_scheme u = inr scheme →
  session_get (if Str.truthy scheme then u else "https://" +:+ u) = inr resp →
  400 ≤ status_code resp < 600 →
  let r := (extract_json_from_url (JStr u) now).1 in
  success r = false ∧ content_type r = None ∧ size_kb r = 0 ∧
  json_objects r = [] ∧ extraction_method r = None ∧ data r = JNull ∧
  ∃ kind, (kind = " Client Error: " ∨ kind = " Server Error: ") ∧
          error r = Some ("Failed to fetch the URL: "
                          +:+ pretty (status_code resp) +:+ kind +:+ reason resp
                          +:+ " for url: " +:+ response_url resp).
Proof.
  intros Hscheme Hget Hstatus. cbv zeta.
  unfold extract_json_from_url, try_block. rewrite Hscheme, Hget.
  unfold raise_for_status.
  destruct ((400 <=? status_code resp) && (status_code resp <? 500)) eqn:H4.
  - cbn. repeat split; try done. exists " Client Error: ". split; [by left|done].
  - destruct ((500 <=? status_code resp) && (status_code resp <? 600)) eqn:H5.
    + cbn. repeat split; try done. exists " Server Error: ". split; [by right|done].
    + apply andb_false_iff in H4, H5. lia.
Qed.

(** X18. [extract_json_from_url] asks the session for at most one URL: it
    does not fetch twice, whatever the first fetch gives.  When it fetches
    nothing (the URL is no string, or [urlparse] raises) the result is a
    failure with an error message and without content type. *)
Theorem fetches_at_most_once (u : json) (now : datetime) :
  let '(r, fetched) := extract_json_from_url u now in
  (length fetched ≤ 1)%nat ∧
  (fetched = [] →
     success r = false ∧ is_Some (error r) ∧ content_type r = None ∧
     json_objects r = []).
Proof.
  unfold extract_json_from_url, try_block.
  assert (Hnone : ∀ (r0 : results) (e : exn),
    blank r0 → content_type r0 = None →
    let '(r, fetched) :=
      if is_request_exception e
      then (set_error ("Failed to fetch the URL: " +:+ exn_str e) r0, @nil string)
      else (set_error ("Extraction error: " +:+ exn_str e) r0, @nil string) in
    (length fetched ≤ 1)%nat ∧
    (fetched = [] →
       success r = false ∧ is_Some (error r) ∧ content_type r = None ∧
       json_objects r = [])).
  { intros r0 e (Hs & _ & Ho & _) Hct.
    destruct (is_request_exception e); cbn; (split; [lia|]); intros _;
      repeat split; eauto. }
  destruct u as [| | | |s| |]; try (by apply Hnone).
  destruct (urlparse_scheme s) as [e|scheme]; [by apply Hnone|].
  destruct (session_get _) as [e|resp].
  { destruct (is_request_exception e); cbn; (split; [lia|done]). }
  destruct (raise_for_status resp) as [e|].
  { destruct (is_request_exception e); cbn; (split; [lia|done]). }
  destruct (method_1 resp _) as [r [e|]]; [destruct (is_request_exception e)|];
    cbn; (split; [lia|done]).
Qed.

(** A method leaves with objects, or the document parser has raised. *)
Lemma method_2_parsed (resp : response) (r : results) (j : json) :
  json_ resp = inr j →
  match (method_2 resp r).2 with
  | Some _ => ∃ e, find_all_script (text resp) = inl e
  | None => success (method_2 resp r).1 = true
  end.
Proof.
  intros Hj. unfold method_2.
  destruct (extract_json_from_script_tags (text resp)) as [e|[|o os]] eqn:Hs; cbn.
  - unfold extract_json_from_script_tags in Hs.
    destruct (find_all_script (text resp)); [eauto|discriminate Hs].
  - unfold method_3.
    destruct (extract_json_ld (text resp)) as [e|[|o os]] eqn:Hl; cbn.
    + unfold extract_json_ld in Hl.
      destruct (find_all_script (text resp)); [eauto|discriminate Hl].
    + unfold method_4.
      destruct (extract_json_from_text (text resp)) as [|o os]; cbn; [|done].
      unfold method_5. by rewrite Hj.
    + done.
  - done.
Qed.

(** X19. A fetched body that [response.json()] parses is never answered
    with "No JSON data found": unless a strategy faults, some method
    returns objects for it, and when the document parser does not raise
    the result is a success. *)
Theorem parsed_body_is_found (u fetched : string) (resp : response)
    (now : datetime) (j : json) :
  fetches u fetched resp →
  json_ resp = inr j →
  let r := (extract_json_from_url (JStr u) now).1 in
  error r ≠ Some "No JSON data found in the provided URL" ∧
  (∀ scripts, find_all_script (text resp) = inr scripts → success r = true).
Proof.
  intros Hf Hj. cbv zeta. unfold extract_json_from_url.
  rewrite (try_block_fetched u fetched resp _ Hf).
  set (r' := set_size_kb _ _).
  assert (Hb : blank r') by done.
  assert (Hout : match (method_1 resp r').2 with
                 | Some _ => ∃ e, find_all_script (text resp) = inl e
                 | None => success (method_1 resp r').1 = true
                 end).
  { unfold method_1. destruct (Str.contains _ _);
      [rewrite Hj; done|by apply (method_2_parsed _ _ j)]. }
  destruct (method_1_left resp r' Hb) as (_ & _ & Hleft).
  destruct (method_1 resp r') as [r [e|]]; cbn [fst snd] in *.
  - destruct Hout as [e' Hsoup].
    destruct (is_request_exception e); cbn; (split; [intros [= H]|]);
      intros scripts Hs; rewrite Hs in Hsoup; discriminate Hsoup.
  - split; [|done].
    destruct Hleft as [(_ & -> & _)|(Hs & _)]; [done|congruence].
Qed.


End FetchProperties.

(** The site that answers 404 with the body [{"a":1}]. *)
Lemma error_status_is_a_failed_fetch_witness :
  let r := (@extract_json_from_url not_found_page (JStr "example.com") noon).1 in
  success r = false ∧ content_type r = None ∧ json_objects r = [] ∧
  error r = Some "Failed to fetch the URL: 404 Client Error: Error for url: https://example.com".
Proof.
  destruct (@error_status_is_a_failed_fetch not_found_page "example.com" EmptyString
              not_found_response noon)
    as (Hs & Hct & _ & Ho & _ & _ & _).
  - vm_compute; reflexivity.
  - vm_compute; reflexivity.
  - vm_compute. split; [discriminate|reflexivity].
  - split; [exact Hs|]. split; [exact Hct|]. split; [exact Ho|].
    vm_compute; reflexivity.
Defined.

(** The JSON body that holds a script element, served as JSON. *)
Lemma parsed_body_is_found_witness :
  let r := (@extract_json_from_url json_page (JStr "example.com") noon).1 in
  error r ≠ Some "No JSON data found in the provided URL" ∧ success r = true.
Proof.
  destruct (@parsed_body_is_found json_page "example.com" "https://example.com"
              json_response noon (JArr [JStr "<script>[{}]</script>"]))
    as [Herr Hok].
  - exists EmptyString. repeat split; vm_compute; reflexivity.
  - vm_compute; reflexivity.
  - split; [exact Herr|].
    destruct (@find_all_script json_page (text json_response)) as [e|scripts] eqn:Hsoup;
      [vm_compute in Hsoup; discriminate Hsoup|].
    exact (Hok scripts eq_refl).
Defined.


(** A URL that is a number: nothing is fetched. *)
Lemma fetches_at_most_once_witness :
  let '(r, fetched) := @extract_json_from_url ld_page (JInt 5) noon in
  fetched = [] ∧ success r = false ∧ is_Some (error r) ∧ content_type r = None.
Proof.
  pose proof (@fetches_at_most_once ld_page (JInt 5) noon) as H.
  destruct (@extract_json_from_url ld_page (JInt 5) noon) as [r fetched] eqn:Hrun.
  assert (Hnil : fetched = []) by (vm_compute in Hrun; by injection Hrun as _ <-).
  destruct H as [_ H]. destruct (H Hnil) as (Hs & He & Hct & _).
  split; [exact Hnil|]. split; [exact Hs|]. split; [exact He|exact Hct].
Defined.

(** ** The manager and its files *)

Lemma new_key_unused (k : string) (st : manager) (d : string) :
  new_key k st → usage_get d k (usage_data st) = 0.
Proof.
  intros [_ Hledger]. unfold usage_get.
  destruct (usage_data st !! d) as [entries|] eqn:Hd; simpl.
  - by rewrite (Hledger d entries Hd).
  - by rewrite lookup_empty.
Qed.

Lemma perform_saving_in_step (o : operation) (st : manager) (disk : saved) :
  in_step st disk → unique_key o st →
  in_step (perform_saving o st disk).1 (perform_saving o st disk).2.
Proof.
  intros [Hkeys Husage] Hnew.
  destruct o as [e p draw now|k now|k now now'|k now];
    cbn [perform_saving perform fst snd].
  - split; [done|]. intros d k. cbn [saved_usage].
    unfold create_api_key. cbn [snd api_keys usage_data].
    destruct (Husage d k) as [Hbounds Hsame]. split; [done|].
    destruct (decide (generate_api_key draw = k)) as [<-|Hne].
    + intros _. cbn [unique_key] in Hnew.
      rewrite (new_key_unused _ st d Hnew) in *. lia.
    + by rewrite lookup_insert_ne.
  - split.
    + by rewrite validate_api_key_keys.
    + intros d k'. rewrite validate_api_key_keys, validate_api_key_ledger.
      apply Husage.
  - destruct (api_keys st !! k) as [kd|] eqn:Hk; cbn [fst snd].
    + split; [done|]. intros d k'. cbn [saved_usage]. split; [|done].
      rewrite record_usage_ledger, usage_get_ledger_after.
      destruct (Husage d k') as [Hbounds _]. case_decide; lia.
    + split.
      * rewrite Hkeys. unfold record_usage. by rewrite Hk.
      * intros d k'. rewrite record_usage_ledger, usage_get_ledger_after.
        rewrite record_usage_keys.
        destruct (Husage d k') as [Hbounds Hsame].
        destruct (decide (k = k')) as [<-|Hne].
        -- rewrite Hk. split; [case_decide; lia|]. by intros [? [=]].
        -- rewrite decide_False by (by intros [? ?]).
           rewrite Z.add_0_r. done.
  - done.
Qed.

Lemma runs_in_step (st : manager) (disk : saved) :
  runs st disk → in_step st disk.
Proof.
  induction 1 as [|o st disk Hruns IH Hnew|st disk Hruns IH].
  - split; [done|]. intros d k. split; [|done].
    unfold usage_get, no_files. cbn. rewrite lookup_empty. cbn.
    rewrite lookup_empty. cbn. lia.
  - by apply perform_saving_in_step.
  - destruct IH as [Hkeys Husage]. split; [done|].
    intros d k. cbn [start usage_data]. destruct (Husage d k) as [Hb _].
    split; [lia|done].
Qed.

(** X21. Whatever operations and restarts the program has gone through
    since it was first started without files, the generated keys being
    new to the store, a restart now loses nothing that is reported or
    checked: for every key and time, [get_key_stats] and the answer of
    [validate_api_key] on the manager built from the files are those on
    the manager in memory, and the keys file holds the key records of the
    memory. *)
Theorem restart_keeps_statistics (st : manager) (disk : saved) :
  runs st disk →
  saved_keys disk = api_keys st ∧
  ∀ k t, get_key_stats k t (start disk) = get_key_stats k t st ∧
         (validate_api_key k t (start disk)).1 = (validate_api_key k t st).1.
Proof.
  intros Hruns. destruct (runs_in_step st disk Hruns) as [Hkeys Husage].
  split; [done|]. intros k t.
  rewrite !validate_api_key_outcome. unfold get_key_stats.
  cbn [start api_keys usage_data]. rewrite Hkeys.
  destruct (api_keys st !! k) as [kd|] eqn:Hk; [|done].
  destruct (Husage (strftime_ymd t) k) as [_ Hsame].
  rewrite Hsame by (rewrite Hk; eauto). done.
Qed.

(** The run [example_run]. *)
Lemma restart_keeps_statistics_witness :
  let k := one_key.1.1 in
  get_key_stats k noon (start example_run.2) = get_key_stats k noon example_run.1 ∧
  (∃ stats, get_key_stats k noon (start example_run.2) = Some stats ∧
            stats_today_usage stats = 2 ∧ stats_total_requests stats = 2) ∧
  usage_data (start example_run.2) ≠ usage_data example_run.1.
Proof.
  cbv zeta. split; [|split].
  - apply restart_keeps_statistics. unfold example_run, saving.
    apply runs_operation; [|exact I].
    apply runs_operation; [|exact I].
    apply runs_operation; [|exact I].
    apply runs_operation; [|exact I].
    apply (runs_operation (CreateKey "ann@example.com" "free" (fun i => i) noon));
      [apply runs_first|].
    split; [apply lookup_empty|].
    intros day entries H. cbn in H. rewrite lookup_empty in H. discriminate H.
  - eexists. split; [|split]; vm_compute; reflexivity.
  - intros H.
    apply (f_equal (usage_get "2024-05-17" "api_unknown")) in H.
    vm_compute in H. discriminate H.
Defined.

Section SaveProperties.

Context {L : Libs} {D : Dump} {E : LoadsError}.

(** X22. The two files do not disturb each other: [load_data] of one file
    ends the same way (with the same data, or the same exception), and
    leaves the same text in its file, before and after [save_data] of
    another; it leaves what [save_data] wrote in place, and every third
    file as it was.  And [load_data] gives back the data [save_data]
    wrote to the same file, and leaves the file as written, whenever
    [json.loads] reads the stripped text [json.dump] wrote as those
    data. *)
Theorem save_data_then_load_data (filename : string) (data : json)
    (fs : gmap string string) :
  (∀ other, other ≠ filename →
     let before := load_data other fs in
     let after_ := load_data other (save_data filename data fs) in
     after_.1 = before.1 ∧
     after_.2 !! other = before.2 !! other ∧
     after_.2 !! filename = Some (json_dump_indent data) ∧
     ∀ f, f ≠ other → f ≠ filename → after_.2 !! f = fs !! f) ∧
  (Str.truthy (strip (json_dump_indent data)) = true →
   json_loads (strip (json_dump_indent data)) = Some data →
   load_data filename (save_data filename data fs) =
     (inr data, save_data filename data fs)).
Proof.
  unfold load_data, save_data. split.
  - intros other Hne. cbv zeta. rewrite lookup_insert_ne by done.
    assert (Hkept : ∀ fs0 : gmap string string,
              (<[filename := json_dump_indent data]> fs0) !! filename
              = Some (json_dump_indent data)) by (intros; apply lookup_insert_eq).
    assert (Hthird : ∀ f, f ≠ other → f ≠ filename →
              (<[other := "{}"]> (<[filename := json_dump_indent data]> fs)) !! f
              = fs !! f).
    { intros f Ho Hf. by rewrite !lookup_insert_ne. }
    assert (Hsaved : ∀ f, f ≠ filename →
              (<[filename := json_dump_indent data]> fs) !! f = fs !! f).
    { intros f Hf. by rewrite lookup_insert_ne. }
    assert (Hwritten :
              (<[other := "{}"]> (<[filename := json_dump_indent data]> fs)) !! filename
              = Some (json_dump_indent data)).
    { rewrite lookup_insert_ne by done. apply lookup_insert_eq. }
    assert (Hown : (<[other := "{}"]> (<[filename := json_dump_indent data]> fs)) !! other
                   = (<[other := "{}"]> fs) !! other).
    { by rewrite !lookup_insert_eq. }
    destruct (fs !! other) as [raw|] eqn:Hraw.
    + destruct (Str.truthy (strip raw)); cbn [negb fst snd].
      * destruct (json_loads (strip raw)); cbn [fst snd].
        -- repeat split; [by rewrite Hsaved| apply Hkept | intros; by apply Hsaved].
        -- destruct (is_json_decode_error _); cbn [fst snd].
           ++ repeat split; [exact Hown | exact Hwritten | exact Hthird].
           ++ repeat split; [by rewrite Hsaved| apply Hkept | intros; by apply Hsaved].
      * repeat split; [by rewrite Hsaved| apply Hkept | intros; by apply Hsaved].
    + cbn [fst snd]. repeat split; [exact Hown | exact Hwritten | exact Hthird].
  - intros Htext Hloads. rewrite lookup_insert_eq. cbv zeta.
    by rewrite Htext, Hloads.
Qed.

End SaveProperties.

(** The object [{"a": {"b": 1}}] saved as the keys file, the usage file
    missing. *)
Lemma save_data_then_load_data_witness :
  let data := JObj [("a", JObj [("b", JInt 1)])] in
  let fs := @save_data model_dump API_KEYS_FILE data ∅ in
  @load_data ld_page decode_errors API_KEYS_FILE fs = (inr data, fs) ∧
  (@load_data ld_page decode_errors USAGE_FILE fs).1 = inr (JObj []) ∧
  (@load_data ld_page decode_errors USAGE_FILE fs).2 !! API_KEYS_FILE
    = Some (dump_at 0 data).
Proof.
  cbv zeta.
  destruct (@save_data_then_load_data ld_page model_dump decode_errors API_KEYS_FILE
              (JObj [("a", JObj [("b", JInt 1)])]) ∅) as [Hother Hsame].
  split; [apply Hsame; vm_compute; reflexivity|].
  destruct (Hother USAGE_FILE) as (Hout & _ & Hkept & _); [discriminate|].
  split; [rewrite Hout; reflexivity|exact Hkept].
Defined.

(** ** Where the objects come from *)

Section Provenance.

Context {L : Libs}.

Lemma load_matches_elem (mk : json -> extracted) (ms : list string)
    (acc : list extracted) (o : extracted) :
  o ∈ load_matches mk ms acc ↔
  o ∈ acc ∨ ∃ c j, c ∈ ms ∧ json_loads c = Some j ∧ o = mk j.
Proof.
  rewrite load_matches_omap, elem_of_app, list_elem_of_omap.
  split; (intros [H|H]; [by left|right]).
  - destruct H as (c & Hc & Ho). cbn in Ho.
    destruct (json_loads c) as [j|] eqn:Hj; [|done].
    injection Ho as <-. eauto.
  - destruct H as (c & j & Hc & Hj & ->). exists c. split; [done|].
    cbn. by rewrite Hj.
Qed.

Lemma no_candidates_in_nothing : find_json_objects "" = [].
Proof. vm_compute. reflexivity. Qed.

Lemma script_tags_elem (html : string) (scripts : list script)
    (objs : list extracted) (o : extracted) :
  find_all_script html = inr scripts →
  extract_json_from_script_tags html = inr objs →
  o ∈ objs ↔
  ∃ s c cand j, s ∈ scripts ∧ string_ s = Some c ∧
                cand ∈ find_json_objects c ∧ json_loads cand = Some j ∧
                o = script_tag_object s j.
Proof.
  intros Hsoup. unfold extract_json_from_script_tags. rewrite Hsoup.
  intros [= <-].
  assert (H : ∀ acc,
    o ∈ fold_left
          (fun json_objects s =>
             match string_ s with
             | Some script_content =>
                 if Str.truthy script_content then
                   load_matches (script_tag_object s)
                     (find_json_objects script_content) json_objects
                 else json_objects
             | None => json_objects
             end) scripts acc ↔
    o ∈ acc ∨
    ∃ s c cand j, s ∈ scripts ∧ string_ s = Some c ∧
                  cand ∈ find_json_objects c ∧ json_loads cand = Some j ∧
                  o = script_tag_object s j).
  { clear Hsoup. induction scripts as [|s scripts IH]; intros acc.
    - cbn [fold_left]. split; [by left|].
      intros [H|(s & c & cand & j & Hs & _)]; [done|by apply elem_of_nil in Hs].
    - cbn [fold_left]. rewrite IH. clear IH.
      assert (Hs : o ∈ match string_ s with
                       | Some script_content =>
                           if Str.truthy script_content then
                             load_matches (script_tag_object s)
                               (find_json_objects script_content) acc
                           else acc
                       | None => acc
                       end ↔
                   o ∈ acc ∨
                   ∃ c cand j, string_ s = Some c ∧ cand ∈ find_json_objects c ∧
                               json_loads cand = Some j ∧ o = script_tag_object s j).
      { destruct (string_ s) as [c|] eqn:Hc.
        - destruct (Str.truthy c) eqn:Ht.
          + rewrite load_matches_elem. split; (intros [H|H]; [by left|right]).
            * destruct H as (cand & j & ? & ? & ?). by exists c, cand, j.
            * destruct H as (c' & cand & j & [= <-] & ? & ? & ?). by exists cand, j.
          + split; [by left|]. intros [H|H]; [done|].
            destruct H as (c' & cand & j & [= <-] & Hcand & _).
            destruct c; [|discriminate Ht].
            rewrite no_candidates_in_nothing in Hcand. by apply elem_of_nil in Hcand.
        - split; [by left|]. intros [H|H]; [done|].
          by destruct H as (c' & cand & j & [=] & _). }
      rewrite Hs. split.
      + intros [[H|H]|H]; [by left|right|right].
        * destruct H as (c & cand & j & ? & ? & ? & ?).
          exists s, c, cand, j. split; [apply elem_of_cons; by left|done].
        * destruct H as (s' & c & cand & j & ? & ?).
          exists s', c, cand, j. split; [apply elem_of_cons; by right|done].
      + intros [H|H]; [by left; left|].
        destruct H as (s' & c & cand & j & Hin & Hrest).
        apply elem_of_cons in Hin as [->|Hin].
        * left. right. by exists c, cand, j.
        * right. by exists s', c, cand, j. }
  rewrite H. split; [|by right].
  intros [Hnil|Hex]; [by apply elem_of_nil in Hnil|done].
Qed.

(** X23. The objects of the pattern strategies are read from the document:
    each object of [extract_json_from_text] holds what [json.loads] makes
    of a candidate that is a substring of the text, and the objects of
    [extract_json_from_script_tags] are exactly those that hold what
    [json.loads] makes of a candidate of the content of a script element,
    with the [type] attribute of that element ("unknown" when it has
    none) as script type. *)
Theorem objects_come_from_the_document :
  (∀ text o, o ∈ extract_json_from_text text →
     ∃ cand, cand ∈ find_json_objects text ∧ substring_of cand text ∧
             json_loads cand = Some (obj_data o)) ∧
  (∀ html scripts objs o,
     find_all_script html = inr scripts →
     extract_json_from_script_tags html = inr objs →
     o ∈ objs ↔
     ∃ s c cand j, s ∈ scripts ∧ string_ s = Some c ∧
                   cand ∈ find_json_objects c ∧ json_loads cand = Some j ∧
                   o = {| obj_type := "script_tag"; obj_data := j;
                          obj_script_type :=
                            Some (default "unknown" (attrs s !! "type")) |}).
Proof.
  split.
  - intros text o Ho. unfold extract_json_from_text in Ho.
    apply load_matches_elem in Ho as [Ho|(cand & j & Hc & Hj & ->)];
      [by apply elem_of_nil in Ho|].
    exists cand. split; [done|]. split; [|done].
    by destruct (candidates_braced text cand Hc).
  - intros html scripts objs o Hsoup Hobjs.
    apply (script_tags_elem html scripts objs o Hsoup Hobjs).
Qed.

(** X24. The method [json_ld] is returned only for a document in which the
    patterns find nothing that parses: when the result of a fetched
    document is [json_ld], [json.loads] has rejected every candidate of
    the content of every script element, the JSON-LD ones included. *)
Theorem json_ld_only_when_patterns_fail (u fetched : string) (resp : response)
    (now : datetime) (scripts : list script) :
  fetches u fetched resp →
  find_all_script (text resp) = inr scripts →
  extraction_method (extract_json_from_url (JStr u) now).1 = Some "json_ld" →
  ∀ s c cand, s ∈ scripts → string_ s = Some c →
              cand ∈ find_json_objects c → json_loads cand = None.
Proof.
  intros Hf Hsoup Hmethod s c cand Hs Hc Hcand.
  destruct (json_loads cand) as [j|] eqn:Hj; [|done]. exfalso.
  assert (Hobjs : ∃ o os, extract_json_from_script_tags (text resp) = inr (o :: os)).
  { destruct (extract_json_from_script_tags (text resp)) as [e|objs] eqn:Hx.
    - unfold extract_json_from_script_tags in Hx. by rewrite Hsoup in Hx.
    - assert (Hin : script_tag_object s j ∈ objs).
      { apply (script_tags_elem _ scripts objs _ Hsoup Hx). by exists s, c, cand, j. }
      destruct objs as [|o os]; [by apply elem_of_nil in Hin|eauto]. }
  destruct Hobjs as (o & os & Hobjs).
  revert Hmethod. unfold extract_json_from_url.
  rewrite (try_block_fetched u fetched resp _ Hf).
  unfold method_1, method_2. rewrite Hobjs.
  destruct (Str.contains _ _); [|done].
  destruct (json_ resp) as [e|j']; [|done].
  by destruct (is_json_decode_error e), (is_request_exception e).
Qed.

End Provenance.

(** The document whose one script element is
    [<script type="application/ld+json">[1]</script>]: the patterns find
    no candidate in [[1]], and the method is [json_ld]. *)
Lemma json_ld_only_when_patterns_fail_witness :
  extraction_method
    (@extract_json_from_url ld_array_page (JStr "example.com") noon).1 =
    Some "json_ld" ∧
  ∀ s c cand, s ∈ [ld_array_script] → string_ s = Some c →
              cand ∈ find_json_objects c → @json_loads ld_array_page cand = None.
Proof.
  split; [vm_compute; reflexivity|].
  apply (@json_ld_only_when_patterns_fail ld_array_page "example.com"
           "https://example.com" ld_array_response noon [ld_array_script]).
  - exists EmptyString. repeat split; vm_compute; reflexivity.
  - vm_compute. reflexivity.
  - vm_compute. reflexivity.
Defined.

(** The text [{"a":1}]: its first object holds what [json.loads] makes of
    a candidate of the text. *)
Lemma objects_come_from_the_document_witness :
  ∃ cand, cand ∈ find_json_objects a1_text ∧ substring_of cand a1_text ∧
          @json_loads ld_page cand = Some a1.
Proof.
  destruct (@objects_come_from_the_document ld_page) as [H _].
  apply (H a1_text {| obj_type := "text_pattern"; obj_data := a1;
                      obj_script_type := None |}).
  apply head_Some_elem_of. vm_compute. reflexivity.
Defined.
